(** * Verification of the inky e-ink driver (eeprom.rs, inky.rs)

    Shallow embedding of the EEPROM identification decoder, the canvas
    bit-packer and the SPI command sequencer of the [inky] crate. Bytes are
    [Z] values in [0, 256); [usize] lengths are [nat]. Rust [Result] with
    [anyhow::Error] becomes [outcome], which also has a [Panic] case for
    arithmetic overflow, out-of-range slicing and allocation failure. *)

From Stdlib Require Import String Ascii.
From Stdlib Require Import List ZArith Lia Bool Arith.
Import ListNotations.
Open Scope Z_scope.

(** ** Outcomes of fallible code *)

(** The errors the code raises with [bail!], [ensure!], [?] and [context]. *)
Inductive error :=
| ETooLarge                 (* PascalString: "Value is too large" *)
| EInvalidColor (v : Z)     (* "Invalid Color value {}" *)
| EInvalidPcbVariant (v : Z)
| EInvalidDisplayVariant (v : Z)
| EShortRead (n : Z)        (* "Read length {} is too small" *)
| ETries (n : nat)          (* "Failed to initialize eeprom in {} tries" *)
| EConvertColor             (* "Cannot convert EEPROM color to Inky Color" *)
| EBus                      (* any I2C / SPI / GPIO failure *).

Inductive outcome (A : Type) :=
| Ok (a : A)
| Err (e : error)
| Panic.
Arguments Ok {A} a.
Arguments Err {A} e.
Arguments Panic {A}.

Definition obind {A B} (m : outcome A) (k : A -> outcome B) : outcome B :=
  match m with
  | Ok a => k a
  | Err e => Err e
  | Panic => Panic
  end.

Notation "'let?' x ':=' m 'in' k" := (obind m (fun x => k))
  (at level 200, x name, m at level 100, k at level 200).

Definition is_ok {A} (m : outcome A) : bool :=
  match m with Ok _ => true | _ => false end.

Definition is_err {A} (m : outcome A) : bool :=
  match m with Err _ => true | _ => false end.

(** Rust slice indexing [v[i]]: panics out of range. *)
Definition index (v : list Z) (i : nat) : outcome Z :=
  match nth_error v i with Some x => Ok x | None => Panic end.

(** Rust slice [v[i..]]: panics when [i > v.len()]. *)
Definition slice_from (v : list Z) (i : nat) : outcome (list Z) :=
  if Nat.leb i (length v) then Ok (skipn i v) else Panic.

(** [u16::from_le_bytes(v[i..i+2].try_into()?)]. *)
Definition le_u16_at (v : list Z) (i : nat) : outcome Z :=
  if Nat.leb (i + 2) (length v) then
    let? lo := index v i in
    let? hi := index v (S i) in
    Ok (lo + 256 * hi)
  else Panic.

(** [x.to_le_bytes()] for a [u16]. *)
Definition u16_le_bytes (x : Z) : list Z := [x mod 256; (x / 256) mod 256].

Module Eeprom.

(** ** PascalString *)

Record PascalString := {
  capacity : Z;        (* u8, includes the length byte *)
  data : list Z
}.

(** [PascalString::with_capacity]: [capacity as usize - 1] underflows for a
    zero capacity (a panic in checked builds; [Vec::with_capacity(usize::MAX)]
    panics with "capacity overflow" otherwise). *)
Definition with_capacity (cap : Z) : outcome PascalString :=
  if cap =? 0 then Panic else Ok {| capacity := cap; data := [] |}.

(** [isize::MAX] on a 64-bit target. *)
Definition isize_max : Z := 2 ^ 63 - 1.

(** [Vec::reserve(additional)] on a [Vec<u8>] of length [len d]: it panics
    with "capacity overflow" when [len + additional] exceeds [isize::MAX]
    bytes; an allocation failure aborts the process and is not modelled. *)
Definition reserve (d : list Z) (additional : nat) : outcome (list Z) :=
  if isize_max <? Z.of_nat (length d) + Z.of_nat additional then Panic else Ok d.

(** [set_capacity]: [self.capacity = capacity as u8 + 1] (a [u8] addition,
    checked), then [self.data.reserve(capacity)]; [cap] is a [usize]. *)
Definition set_capacity (s : PascalString) (cap : nat) : outcome PascalString :=
  let c := Z.of_nat cap mod 256 + 1 in
  if c <? 256 then
    let? d := reserve (data s) cap in
    Ok {| capacity := c; data := d |}
  else Panic.

(** [set_data]: clear, then take [self.capacity - 1] items. *)
Definition set_data (s : PascalString) (d : list Z) : outcome PascalString :=
  if capacity s =? 0 then Panic
  else Ok {| capacity := capacity s;
             data := firstn (Z.to_nat (capacity s - 1)) d |}.

(** [impl TryFrom<&[u8]> for PascalString]. *)
Definition pascal_try_from (value : list Z) : outcome PascalString :=
  if negb (Nat.ltb (length value) 254) then Err ETooLarge
  else
    let? s := with_capacity (Z.of_nat (length value)) in
    if 1 <? capacity s then
      let? d := slice_from value 1 in
      let? s := set_capacity s (length d) in
      set_data s d
    else Ok s.

(** [impl From<PascalString> for Vec<u8>]. *)
Definition pascal_to_bytes (s : PascalString) : list Z := capacity s :: data s.

(** ** Closed enumerations *)

Inductive Color := Black | Red | Yellow | SevenColor.

(** [#[repr(u8)]] discriminants of [Color]. *)
Definition color_to_u8 (c : Color) : Z :=
  match c with Black => 1 | Red => 2 | Yellow => 3 | SevenColor => 5 end.

(** Derived [FromPrimitive::from_u8]. *)
Definition color_from_u8 (v : Z) : outcome Color :=
  if v =? 1 then Ok Black
  else if v =? 2 then Ok Red
  else if v =? 3 then Ok Yellow
  else if v =? 5 then Ok SevenColor
  else Err (EInvalidColor v).

Inductive PcbVariant := V1.

Definition pcb_variant_to_u8 (p : PcbVariant) : Z := match p with V1 => 12 end.

Definition pcb_variant_from_u8 (v : Z) : outcome PcbVariant :=
  if v =? 12 then Ok V1 else Err (EInvalidPcbVariant v).

Inductive DisplayVariant :=
| Phat | PhatSsd1608 | What | Uc8159_600x448 | Uc8159_640x400
| WhatSsd1683 | Ac073Tc1A.

(** [value as u8] for the [#[repr(u8)]] enum [DisplayVariant], which has no
    explicit discriminants: they are 0, 1, 2, ... in declaration order. *)
Definition display_variant_as_u8 (d : DisplayVariant) : Z :=
  match d with
  | Phat => 0 | PhatSsd1608 => 1 | What => 2 | Uc8159_600x448 => 3
  | Uc8159_640x400 => 4 | WhatSsd1683 => 5 | Ac073Tc1A => 6
  end.

Definition mem_Z (v : Z) (l : list Z) : bool := existsb (Z.eqb v) l.

(** [impl TryFrom<u8> for DisplayVariant]. *)
Definition display_variant_from_u8 (v : Z) : outcome DisplayVariant :=
  if mem_Z v [1; 4; 5] then Ok Phat
  else if mem_Z v [10; 11; 12] then Ok PhatSsd1608
  else if mem_Z v [2; 3; 6; 7; 8] then Ok What
  else if v =? 14 then Ok Uc8159_600x448
  else if mem_Z v [15; 16] then Ok Uc8159_640x400
  else if mem_Z v [17; 18; 19] then Ok WhatSsd1683
  else if v =? 20 then Ok Ac073Tc1A
  else Err (EInvalidDisplayVariant v).

(** ** The EEPROM record *)

Record EEPROM := {
  width : Z;
  height : Z;
  color : Color;
  pcb_variant : PcbVariant;
  display_variant : DisplayVariant;
  eeprom_write_time : PascalString
}.

(** [impl From<EEPROM> for Vec<u8>]. *)
Definition eeprom_to_bytes (e : EEPROM) : list Z :=
  u16_le_bytes (width e) ++ u16_le_bytes (height e)
  ++ [color_to_u8 (color e); pcb_variant_to_u8 (pcb_variant e);
      display_variant_as_u8 (display_variant e)]
  ++ pascal_to_bytes (eeprom_write_time e).

(** [impl TryFrom<&[u8]> for EEPROM]. *)
Definition eeprom_try_from (value : list Z) : outcome EEPROM :=
  let? w := le_u16_at value 0 in
  let? h := le_u16_at value 2 in
  let? cb := index value 4 in
  let? c := color_from_u8 cb in
  let? pb := index value 5 in
  let? p := pcb_variant_from_u8 pb in
  let? db := index value 6 in
  let? d := display_variant_from_u8 db in
  let? tail := slice_from value 7 in
  let wt_bytes := filter (fun v => negb (v =? 255)) tail in
  let? wt := pascal_try_from wt_bytes in
  Ok {| width := w; height := h; color := c; pcb_variant := p;
        display_variant := d; eeprom_write_time := wt |}.

End Eeprom.

(** ** The write-time accessor

    [EEPROM::eeprom_write_time] hands [String::from_utf8_lossy(data)] to
    chrono's [NaiveDateTime::parse_from_str] with the format
    ["%Y-%m-%d %H:%M:%S%.1f"]. chrono reads the format as a sequence of
    items ([StrftimeItems]), [format::parse] runs the items over the input
    in order, filling a [Parsed], and [Parsed::to_naive_datetime_with_offset]
    builds the value. The input is modelled as its bytes: [from_utf8_lossy]
    keeps ASCII bytes as they are, [scan::number] and literal matching work
    on bytes, and every byte the items compare against is ASCII. *)
Module WriteTime.

Record NaiveDateTime := {
  year : Z; month : Z; day : Z;
  hour : Z; minute : Z; second : Z; nanosecond : Z
}.

(** [chrono::format::ParseErrorKind]. *)
Inductive ParseErrorKind :=
| OutOfRange | Impossible | NotEnough | Invalid | TooShort | TooLong | BadFormat.

(** [ParseResult<T>]. *)
Inductive presult (A : Type) :=
| POk (a : A)
| PErr (k : ParseErrorKind).
Arguments POk {A} a.
Arguments PErr {A} k.

Definition pbind {A B} (m : presult A) (k : A -> presult B) : presult B :=
  match m with POk a => k a | PErr e => PErr e end.

Notation "'let!' x ':=' m 'in' k" := (pbind m (fun x => k))
  (at level 200, x pattern, m at level 100, k at level 200).

(** The [Numeric] fields the format names. *)
Inductive Numeric := Year | Month | Day | Hour | Minute | Second.

Scheme Equality for Numeric.

(** [chrono::format::Item]: literal text, white space, a zero-padded
    numeric field, or [Item::Error]. *)
Inductive Item :=
| Literal (s : list Z)
| Space (s : list Z)
| Num (n : Numeric)
| Error.

(** [StrftimeItems::new("%Y-%m-%d %H:%M:%S%.1f")]. [%Y] to [%S] are
    numerics, the text between them literals and the blank a space. After
    [%.] chrono knows only [f], [3f], [6f] and [9f]; any other character
    gives [Item::Error], so [%.1] is [Item::Error], and the [f] left over
    is a literal. *)
Definition write_time_items : list Item :=
  [Num Year; Literal [45]; Num Month; Literal [45]; Num Day; Space [32];
   Num Hour; Literal [58]; Num Minute; Literal [58]; Num Second;
   Error; Literal [102]].

(** The fields of [Parsed] these items can set. *)
Definition Parsed := Numeric -> option Z.

Definition parsed_new : Parsed := fun _ => None.

(** [set_if_consistent]: a field already set must get the same value. *)
Definition set_if_consistent (old : option Z) (v : Z) : presult (option Z) :=
  match old with
  | Some o => if o =? v then POk old else PErr Impossible
  | None => POk (Some v)
  end.

(** [Parsed::set_year] ([i32]), [set_hour] ([0..=23]), and [set_month],
    [set_day], [set_minute], [set_second] ([u32]). *)
Definition set_field (p : Parsed) (n : Numeric) (v : Z) : presult Parsed :=
  let in_range :=
    match n with
    | Year => (- 2 ^ 31 <=? v) && (v <? 2 ^ 31)
    | Hour => (0 <=? v) && (v <=? 23)
    | _ => (0 <=? v) && (v <? 2 ^ 32)
    end in
  if in_range then
    let! x := set_if_consistent (p n) v in
    POk (fun m => if Numeric_beq m n then x else p m)
  else PErr OutOfRange.

Definition digit (b : Z) : option Z :=
  if (48 <=? b) && (b <=? 57) then Some (b - 48) else None.

(** The digit loop of [scan::number]: at most [max] more digits, with
    [i64] overflow checks. *)
Fixpoint number_from (max : nat) (n : Z) (s : list Z) : presult (Z * list Z) :=
  match max, s with
  | S max', b :: s' =>
      match digit b with
      | Some d =>
          if 10 * n + d <? 2 ^ 63 then number_from max' (10 * n + d) s'
          else PErr OutOfRange
      | None => POk (n, s)
      end
  | _, _ => POk (n, s)
  end.

(** [scan::number(s, 1, max)]. *)
Definition number (s : list Z) (max : nat) : presult (Z * list Z) :=
  match s with
  | [] => PErr TooShort
  | b :: _ =>
      match digit b with
      | None => PErr Invalid
      | Some _ => number_from max 0 s
      end
  end.

(** [str::trim_start], on ASCII white space. *)
Definition is_space (b : Z) : bool := (b =? 32) || ((9 <=? b) && (b <=? 13)).

Fixpoint trim_start (s : list Z) : list Z :=
  match s with
  | b :: s' => if is_space b then trim_start s' else s
  | [] => []
  end.

Fixpoint starts_with (s pre : list Z) : bool :=
  match pre, s with
  | [], _ => true
  | c :: pre', b :: s' => (b =? c) && starts_with s' pre'
  | _ :: _, [] => false
  end.

(** A numeric item: [Year] is signed, of width 4 without a sign and of any
    width after one; the other fields are unsigned, of width 2. *)
Definition scan_numeric (n : Numeric) (s : list Z) : presult (Z * list Z) :=
  match n with
  | Year =>
      match s with
      | b :: s' =>
          if b =? 45 then let! (v, r) := number s' (length s') in POk (- v, r)
          else if b =? 43 then number s' (length s')
          else number s 4
      | [] => number s 4
      end
  | _ => number s 2
  end.

(** [format::parse]: the items in order, then no input may be left. *)
Fixpoint parse_items (items : list Item) (p : Parsed) (s : list Z) : presult Parsed :=
  match items with
  | [] => match s with [] => POk p | _ :: _ => PErr TooLong end
  | Literal pre :: items' =>
      if Nat.ltb (length s) (length pre) then PErr TooShort
      else if starts_with s pre then parse_items items' p (skipn (length pre) s)
      else PErr Invalid
  | Space _ :: items' => parse_items items' p (trim_start s)
  | Num n :: items' =>
      let! (v, s') := scan_numeric n (trim_start s) in
      let! p' := set_field p n v in
      parse_items items' p' s'
  | Error :: _ => PErr BadFormat
  end.

Definition leap (y : Z) : bool :=
  ((y mod 4 =? 0) && negb (y mod 100 =? 0)) || (y mod 400 =? 0).

Definition days_in_month (y m : Z) : Z :=
  if m =? 2 then (if leap y then 29 else 28)
  else if existsb (Z.eqb m) [4; 6; 9; 11] then 30 else 31.

(** [Parsed::to_naive_datetime_with_offset(0)] for these fields: the date
    from year, month and day, the time from hour and minute, the second 0
    when absent and a leap second 60 read as 59 plus one second of
    nanoseconds; a missing field is [NotEnough], a date or time out of
    range [OutOfRange]. *)
Definition to_naive_datetime (p : Parsed) : presult NaiveDateTime :=
  match p Year, p Month, p Day, p Hour, p Minute with
  | Some y, Some mo, Some d, Some h, Some mi =>
      let se := match p Second with Some x => x | None => 0 end in
      if (1 <=? mo) && (mo <=? 12) && (1 <=? d) && (d <=? days_in_month y mo)
         && (mi <=? 59) && (se <=? 60)
      then POk {| year := y; month := mo; day := d; hour := h; minute := mi;
                  second := if se =? 60 then 59 else se;
                  nanosecond := if se =? 60 then 1000000000 else 0 |}
      else PErr OutOfRange
  | _, _, _, _, _ => PErr NotEnough
  end.

(** [NaiveDateTime::parse_from_str(s, fmt)]. *)
Definition parse_from_str (s : list Z) (items : list Item) : presult NaiveDateTime :=
  let! p := parse_items items parsed_new s in
  to_naive_datetime p.

End WriteTime.

(** [EEPROM::eeprom_write_time]. *)
Definition eeprom_write_time (e : Eeprom.EEPROM)
  : WriteTime.presult WriteTime.NaiveDateTime :=
  WriteTime.parse_from_str (Eeprom.data (Eeprom.eeprom_write_time e))
                           WriteTime.write_time_items.

(** ** Bus events and the driver monad

    The buses and GPIO lines are observed through a trace: the packets handed
    to [spi_send] (the packet-capturing test double the spec describes), the
    blocking sleeps, busy waits, reset-line edges and the I2C transfers. *)

Inductive event :=
| SpiSend (command : option Z) (data : list Z)
| Sleep (ms : Z)
| Wait
| ResetLine (high : bool)
| DcLine (high : bool)
| PinReleased (pin : Z)
| I2cWrite (addr : Z) (bytes : list Z)
| I2cRead (addr : Z).

Definition M (A : Type) := list event -> outcome A * list event.

Definition ret {A} (a : A) : M A := fun tr => (Ok a, tr).
Definition raise {A} (e : error) : M A := fun tr => (Err e, tr).
Definition panic {A} : M A := fun tr => (Panic, tr).
Definition emit (ev : event) : M unit := fun tr => (Ok tt, tr ++ [ev]).

Definition bind {A B} (m : M A) (k : A -> M B) : M B :=
  fun tr =>
    match m tr with
    | (Ok a, tr') => k a tr'
    | (Err e, tr') => (Err e, tr')
    | (Panic, tr') => (Panic, tr')
    end.

(** The [?] operator on a pure outcome. *)
Definition lift {A} (m : outcome A) : M A :=
  fun tr => (m, tr).

Notation "x <- m ;; k" := (bind m (fun x => k))
  (at level 61, m at next level, right associativity).
Notation "m ;;; k" := (bind m (fun _ => k))
  (at level 61, right associativity).

Module Inky.

(** ** Drawing colors and the canvas *)

Inductive Color := Red | Yellow | Black | White.

(** [Color::as_u8]: 1 unless Black. *)
Definition as_u8 (c : Color) : Z :=
  match c with Black => 0 | _ => 1 end.

(** [Canvas]: [pixels] is indexed [pixels[col][row]]. *)
Record Canvas := {
  cwidth : nat;
  cheight : nat;
  pixels : list (list Color)
}.

(** [Canvas::new]: [vec![vec![Color::White; height]; width]]. *)
Definition canvas_new (width height : nat) : Canvas :=
  {| cwidth := width; cheight := height;
     pixels := repeat (repeat White height) width |}.

(** [Vec] index assignment [v[i] = x]. *)
Fixpoint replace_at {A} (i : nat) (x : A) (l : list A) : outcome (list A) :=
  match l, i with
  | [], _ => Panic
  | _ :: l', O => Ok (x :: l')
  | y :: l', S i' => let? r := replace_at i' x l' in Ok (y :: r)
  end.

(** [Canvas::set_pixel]: [self.pixels[col][row] = color]. *)
Definition set_pixel (c : Canvas) (col row : nat) (color : Color) : outcome Canvas :=
  match nth_error (pixels c) col with
  | None => Panic
  | Some column =>
      let? column' := replace_at row color column in
      let? px := replace_at col column' (pixels c) in
      Ok {| cwidth := cwidth c; cheight := cheight c; pixels := px |}
  end.

(** The loop state of [Canvas::pack]: [(packed, bit_pos, cur_byte)]. *)
Definition pack_state := (list Z * Z * Z)%type.

(** One iteration of the inner loop of [Canvas::pack]. *)
Definition pack_step (st : pack_state) (b : Color) : pack_state :=
  let '(packed, bit_pos, cur_byte) := st in
  let cur_byte := Z.lor cur_byte (Z.shiftl (as_u8 b) bit_pos) in
  let bit_pos := bit_pos + 1 in
  if bit_pos =? 8 then (packed ++ [cur_byte], 0, 0)
  else (packed, bit_pos, cur_byte).

(** [Canvas::pack]: [for row in &self.pixels { for b in row { ... } }]. *)
Definition pack (c : Canvas) : list Z :=
  let '(packed, bit_pos, cur_byte) :=
    fold_left (fun st row => fold_left pack_step row st) (pixels c) ([], 0, 0) in
  if negb (bit_pos =? 0) then packed ++ [cur_byte] else packed.

(** ** Commands and packets *)

Inductive Command :=
| DataEntryMode | DisplayUpdateSequence | DummyLinePeriod | EnterDeepSleep
| GSTransition | GateDrivingVoltage | GateLineWidth | GateSetting
| SetAnalogBlockControl | SetDigitalBlockControl | SetLUT
| SetRamXPointerStart | SetRamXStartEnd | SetRamYPointerStart
| SetRamYStartEnd | SoftReset | SourceDrivingVoltage | TriggerDisplayUpdate
| VComRegister | SetBWBuffer | SetRYBuffer.

Definition command_code (c : Command) : Z :=
  match c with
  | DataEntryMode => 0x11 | DisplayUpdateSequence => 0x22
  | DummyLinePeriod => 0x3a | EnterDeepSleep => 0x10 | GSTransition => 0x3c
  | GateDrivingVoltage => 0x3 | GateLineWidth => 0x3b | GateSetting => 0x1
  | SetAnalogBlockControl => 0x74 | SetDigitalBlockControl => 0x7e
  | SetLUT => 0x32 | SetRamXPointerStart => 0x4e | SetRamXStartEnd => 0x44
  | SetRamYPointerStart => 0x4f | SetRamYStartEnd => 0x45 | SoftReset => 0x12
  | SourceDrivingVoltage => 0x4 | TriggerDisplayUpdate => 0x20
  | VComRegister => 0x2c | SetBWBuffer => 0x24 | SetRYBuffer => 0x26
  end.

(** [SpiPacket], as produced by [SpiPacketBuilder] (whose [build] cannot
    fail: both fields have defaults). *)
Record SpiPacket := {
  pcommand : option Command;
  pdata : list Z
}.

(** [Inky::spi_send], observed at the packet level: the command byte given by
    [SpiPacket::command] and the data bytes. *)
Definition spi_send (p : SpiPacket) : M unit :=
  emit (SpiSend (option_map command_code (pcommand p)) (pdata p)).

Definition cmd (c : Command) (d : list Z) : SpiPacket :=
  {| pcommand := Some c; pdata := d |}.

(** [LUT_BLACK]: five 7-phase voltage rows (LUT0 black, LUT1 white, unused,
    LUT3 red/yellow, VCOM), then seven 5-byte duration/repeat rows. *)
Definition LUT_BLACK : list Z :=
  [0x48; 0xA0; 0x10; 0x10; 0x13; 0x00; 0x00]
  ++ [0x48; 0xA0; 0x80; 0x00; 0x03; 0x00; 0x00]
  ++ repeat 0 7
  ++ [0x48; 0xA5; 0x00; 0xBB; 0x00; 0x00; 0x00]
  ++ repeat 0 7
  ++ [0x10; 0x04; 0x04; 0x04; 0x04]
  ++ [0x10; 0x04; 0x04; 0x04; 0x04]
  ++ [0x04; 0x08; 0x08; 0x10; 0x10]
  ++ repeat 0 20.

(** ** The controller *)

Record Inky := {
  iwidth : Z;
  iheight : Z;
  icolor : Color;
  canvas : Canvas
}.

(** [usize] subtraction, overflow-checked. *)
Definition usize_sub (a b : nat) : M nat :=
  if Nat.leb b a then ret (a - b)%nat else panic.

(** [Inky::wait]: arm the falling-edge interrupt on busy, block, clear. *)
Definition wait : M unit := emit Wait.

(** [Inky::update], on the packet-capturing test double: every packet is
    sent and every busy wait returns. *)
Definition update (self : Inky) : M unit :=
  let c := canvas self in
  spi_send (cmd SetAnalogBlockControl [0x54]);;;
  spi_send (cmd SetDigitalBlockControl [0x3b]);;;
  let gate_setting_data := u16_le_bytes (Z.of_nat (cheight c) mod 65536) ++ [0x00] in
  spi_send (cmd GateSetting gate_setting_data);;;
  spi_send (cmd GateDrivingVoltage [0x17]);;;
  spi_send (cmd SourceDrivingVoltage [0x41; 0xAC; 0x32]);;;
  spi_send (cmd DummyLinePeriod [0x07]);;;
  spi_send (cmd GateLineWidth [0x04]);;;
  spi_send (cmd DataEntryMode [0x03]);;;
  spi_send (cmd VComRegister [0x3c]);;;
  spi_send (cmd GSTransition [0x31]);;;
  spi_send (cmd SetLUT LUT_BLACK);;;
  x_end <- usize_sub (cwidth c / 8) 1;;
  spi_send (cmd SetRamXStartEnd [0x00; Z.of_nat x_end mod 256]);;;
  let data := [0x00; 0x00] ++ u16_le_bytes (Z.of_nat (cheight c) mod 65536) in
  spi_send (cmd SetRamYStartEnd data);;;
  let bw_buf := pack c in
  spi_send (cmd SetRamXPointerStart [0x00]);;;
  spi_send (cmd SetRamYPointerStart [0x00; 0x00]);;;
  spi_send (cmd SetBWBuffer bw_buf);;;
  spi_send (cmd DisplayUpdateSequence [0xc7]);;;
  spi_send {| pcommand := Some TriggerDisplayUpdate; pdata := [] |};;;
  emit (Sleep 50);;;
  wait;;;
  spi_send (cmd EnterDeepSleep [0x01]).

(** [impl TryFrom<eeprom::Color> for inky::Color]. *)
Definition color_try_from (c : Eeprom.Color) : outcome Color :=
  match c with
  | Eeprom.Black => Ok Black
  | Eeprom.Red => Ok Red
  | Eeprom.Yellow => Ok Yellow
  | Eeprom.SevenColor => Err EConvertColor
  end.

(** Results of the fallible GPIO and SPI calls of [try_from] and [reset]. *)
Record Peripherals := {
  gpio_new_ok : bool;        (* Gpio::new() *)
  gpio_get_ok : Z -> bool;   (* gpio.get(pin) *)
  spi_new_ok : bool;         (* Spi::new(Spi0, Ss0, 488_000, Mode0) *)
  spi_write_ok : bool;       (* spi.write of the SoftReset command byte *)
  set_interrupt_ok : bool;   (* busy.set_interrupt(FallingEdge) *)
  poll_interrupt_ok : bool;  (* busy.poll_interrupt(false, None) *)
  clear_interrupt_ok : bool  (* busy.clear_interrupt() *)
}.

Definition acquire (ok : bool) : M unit := if ok then ret tt else raise EBus.

(** [Inky::spi_send] of a packet with a command and no data: DC low and one
    [spi.write] of the command byte, whose error is returned. *)
Definition send_command_on (hw : Peripherals) (c : Command) : M unit :=
  if spi_write_ok hw then spi_send {| pcommand := Some c; pdata := [] |}
  else raise EBus.

(** [Inky::wait] with the results of the three interrupt calls; the busy
    wait is over when [poll_interrupt] returns. *)
Definition wait_on (hw : Peripherals) : M unit :=
  acquire (set_interrupt_ok hw);;;
  acquire (poll_interrupt_ok hw);;;
  wait;;;
  acquire (clear_interrupt_ok hw).

(** [Inky::reset]. *)
Definition reset (hw : Peripherals) : M unit :=
  emit (ResetLine false);;;
  emit (Sleep 100);;;
  emit (ResetLine true);;;
  emit (Sleep 100);;;
  send_command_on hw SoftReset;;;
  wait_on hw.

(** Leaving [try_from] early drops the GPIO pins held at that point, in
    order: rppal's pins reset on drop, giving the pin back the mode it had
    before it was taken. *)
Definition drop_on_error {A} (pins : list Z) (m : M A) : M A :=
  fun tr =>
    match m tr with
    | (Ok a, tr') => (Ok a, tr')
    | (Err e, tr') => (Err e, tr' ++ map PinReleased pins)
    | (Panic, tr') => (Panic, tr' ++ map PinReleased pins)
    end.

(** [impl TryFrom<EEPROM> for Inky]. [dc.into_output_low()] drives DC low
    and [reset.into_output_high()] drives reset high. The builder's
    arguments are evaluated in order, so the color conversion and [Spi::new]
    run while the pins are still locals (dropped busy, reset, dc on an
    error), and [.dc(dc)], [.reset(reset)], [.busy(busy)] come after them;
    [build()] cannot fail, every field being set. When [reset()] fails the
    built [Inky] is dropped, its fields in declaration order (dc, reset,
    busy). *)
Definition try_from (hw : Peripherals) (value : Eeprom.EEPROM) : M Inky :=
  acquire (gpio_new_ok hw);;;
  acquire (gpio_get_ok hw 22);;;
  emit (DcLine false);;;
  drop_on_error [22] (acquire (gpio_get_ok hw 27));;;
  emit (ResetLine true);;;
  drop_on_error [27; 22] (acquire (gpio_get_ok hw 17));;;
  col <- drop_on_error [17; 27; 22] (lift (color_try_from (Eeprom.color value)));;
  drop_on_error [17; 27; 22] (acquire (spi_new_ok hw));;;
  let inky := {| iwidth := Eeprom.width value; iheight := Eeprom.height value;
                 icolor := col;
                 canvas := canvas_new (Z.to_nat (Eeprom.width value))
                                      (Z.to_nat (Eeprom.height value)) |} in
  drop_on_error [22; 27; 17] (reset hw);;;
  ret inky.

End Inky.

(** ** EEPROM acquisition over I2C *)

(** The four fallible bus calls of one attempt, in order: [set_slave_address],
    [write(&[0x00; 2])], [set_slave_address] again and [read]. *)
Inductive I2cStage := AtSetAddress | AtWrite | AtSetAddressAgain | AtRead.

(** What one attempt of the I2C test double does: a bus error at one of
    the four calls (the calls before it succeed), or a read of [n] bytes
    filling the 29-byte buffer with [buf]. *)
Inductive I2cAttempt :=
| I2cFail (stage : I2cStage)
| I2cReadBytes (n : Z) (buf : list Z).

Definition ADDRESS : Z := 0x50.
Definition DEFAULT_TRIES : nat := 10.

(** The body of the [for _ in 0..max_tries] loop, attempt [i] onward. *)
Fixpoint tries_loop (max_tries : nat) (bus : nat -> I2cAttempt) (left i : nat)
  : M Eeprom.EEPROM :=
  match left with
  | O => raise (ETries max_tries)
  | S left' =>
      match bus i with
      | I2cFail AtSetAddress | I2cFail AtWrite => raise EBus
      | I2cFail AtSetAddressAgain | I2cFail AtRead =>
          emit (I2cWrite ADDRESS [0x00; 0x00]);;;
          raise EBus
      | I2cReadBytes read buffer =>
          emit (I2cWrite ADDRESS [0x00; 0x00]);;;
          emit (I2cRead ADDRESS);;;
          if read <? 29 then raise (EShortRead read)
          else
            match Eeprom.eeprom_try_from buffer with
            | Ok eeprom => ret eeprom
            | Err _ => emit (Sleep 100);;; tries_loop max_tries bus left' (S i)
            | Panic => panic
            end
      end
  end.

(** [EEPROM::try_new_tries]; [bus_ok] is the result of [I2c::with_bus]. *)
Definition try_new_tries (bus_ok : bool) (bus : nat -> I2cAttempt) (max_tries : nat)
  : M Eeprom.EEPROM :=
  Inky.acquire bus_ok;;;
  tries_loop max_tries bus max_tries 0.

(** [EEPROM::try_new]. *)
Definition try_new (bus_ok : bool) (bus : nat -> I2cAttempt) : M Eeprom.EEPROM :=
  try_new_tries bus_ok bus DEFAULT_TRIES.

(** ** The remaining code of inky.rs and eeprom.rs *)

(** [Canvas::get_pixel]: [self.pixels[col][row].clone()], panicking out of
    range. *)
Definition get_pixel (c : Inky.Canvas) (col row : nat) : outcome Inky.Color :=
  match nth_error (Inky.pixels c) col with
  | None => Panic
  | Some column =>
      match nth_error column row with
      | Some x => Ok x
      | None => Panic
      end
  end.

(** The variants of [Command] in declaration order. *)
Definition command_variants : list Inky.Command :=
  [Inky.DataEntryMode; Inky.DisplayUpdateSequence; Inky.DummyLinePeriod;
   Inky.EnterDeepSleep; Inky.GSTransition; Inky.GateDrivingVoltage;
   Inky.GateLineWidth; Inky.GateSetting; Inky.SetAnalogBlockControl;
   Inky.SetDigitalBlockControl; Inky.SetLUT; Inky.SetRamXPointerStart;
   Inky.SetRamXStartEnd; Inky.SetRamYPointerStart; Inky.SetRamYStartEnd;
   Inky.SoftReset; Inky.SourceDrivingVoltage; Inky.TriggerDisplayUpdate;
   Inky.VComRegister; Inky.SetBWBuffer; Inky.SetRYBuffer].

(** Derived [FromPrimitive::from_u8] for [Command]: the first variant, in
    declaration order, whose discriminant is [v]. [TryFrom<u8> for Command]
    turns [None] into the error "Invalid value for command". *)
Definition command_from_u8 (v : Z) : option Inky.Command :=
  find (fun c => Inky.command_code c =? v) command_variants.

(** Derived [ToPrimitive::to_u8] for [Command] ([TryFrom<Command> for u8]):
    the discriminant, which always fits a [u8]. *)
Definition command_to_u8 (c : Inky.Command) : option Z :=
  if (0 <=? Inky.command_code c) && (Inky.command_code c <? 256)
  then Some (Inky.command_code c) else None.

(** [SpiPacket::command]: [self.command.clone().and_then(|c| c.try_into().ok())]. *)
Definition packet_command (p : Inky.SpiPacket) : option Z :=
  match Inky.pcommand p with
  | Some c => command_to_u8 c
  | None => None
  end.

(** Derived [ToPrimitive::to_u8] for the EEPROM [Color] and [PcbVariant]
    ([TryFrom<Color> for u8], [TryFrom<PcbVariant> for u8]). *)
Definition color_try_into_u8 (c : Eeprom.Color) : option Z :=
  let v := Eeprom.color_to_u8 c in
  if (0 <=? v) && (v <? 256) then Some v else None.

Definition pcb_variant_try_into_u8 (p : Eeprom.PcbVariant) : option Z :=
  let v := Eeprom.pcb_variant_to_u8 p in
  if (0 <=? v) && (v <? 256) then Some v else None.

(** What [Inky::spi_send] does on the wires: the data/command line driven
    low or high, and each [spi.write] (every write succeeds here). *)
Inductive wire :=
| DcLow
| DcHigh
| SpiWrite (bytes : list Z).

(** [slice.chunks(n)] for [n > 0]: consecutive slices of [n] elements, the
    last one shorter. [fuel] bounds the number of chunks. *)
Fixpoint chunks_fuel (fuel n : nat) (l : list Z) : list (list Z) :=
  match fuel, l with
  | O, _ => []
  | _, [] => []
  | S f, _ => firstn n l :: chunks_fuel f n (skipn n l)
  end.

Definition chunks (n : nat) (l : list Z) : list (list Z) :=
  chunks_fuel (length l) n l.

(** [Inky::spi_send]: the command byte with DC low, then, for non-empty
    data, DC high and the data in chunks of 4096 bytes. *)
Definition spi_send_wire (p : Inky.SpiPacket) : list wire :=
  match packet_command p with
  | Some command => [DcLow; SpiWrite [command]]
  | None => []
  end
  ++ match Inky.pdata p with
     | [] => []
     | _ => DcHigh :: map SpiWrite (chunks 4096 (Inky.pdata p))
     end.

(** An I2C read in the trace. *)
Definition is_i2c_read (ev : event) : bool :=
  match ev with I2cRead _ => true | _ => false end.

(** ** Readings of the spec, for comparison with the code *)

(** The packet sequence of §4.4 as the spec lists it, with the X-address
    window's end byte [x_end] as a parameter. *)
Definition spec_update_sequence (c : Inky.Canvas) (x_end : Z) : list event :=
  let h := Z.of_nat (Inky.cheight c) in
  [ SpiSend (Some 0x74) [0x54];                       (* analog block *)
    SpiSend (Some 0x7e) [0x3b];                       (* digital block *)
    SpiSend (Some 0x01) (u16_le_bytes h ++ [0x00]);   (* gate lines *)
    SpiSend (Some 0x03) [0x17];                       (* gate voltage *)
    SpiSend (Some 0x04) [0x41; 0xAC; 0x32];           (* source voltage *)
    SpiSend (Some 0x3a) [0x07];                       (* dummy line period *)
    SpiSend (Some 0x3b) [0x04];                       (* gate line width *)
    SpiSend (Some 0x11) [0x03];                       (* data entry mode *)
    SpiSend (Some 0x2c) [0x3c];                       (* VCOM *)
    SpiSend (Some 0x3c) [0x31];                       (* GS transition *)
    SpiSend (Some 0x32) Inky.LUT_BLACK;               (* LUT *)
    SpiSend (Some 0x44) [0x00; x_end];                (* X window *)
    SpiSend (Some 0x45) ([0x00; 0x00] ++ u16_le_bytes h); (* Y window *)
    SpiSend (Some 0x4e) [0x00];                       (* X pointer *)
    SpiSend (Some 0x4f) [0x00; 0x00];                 (* Y pointer *)
    SpiSend (Some 0x24) (Inky.pack c);                (* B/W buffer *)
    SpiSend (Some 0x22) [0xc7];                       (* update sequence *)
    SpiSend (Some 0x20) [];                           (* trigger *)
    Sleep 50; Wait;
    SpiSend (Some 0x10) [0x01] ].                     (* deep sleep *)

(** The controller built for a panel of the given canvas. *)
Definition inky_of_canvas (c : Inky.Canvas) : Inky.Inky :=
  {| Inky.iwidth := Z.of_nat (Inky.cwidth c); Inky.iheight := Z.of_nat (Inky.cheight c);
     Inky.icolor := Inky.Black; Inky.canvas := c |}.

(** The sample identification bytes of the spec (and of the test comment in
    eeprom.rs): a 400x300 black wHAT written at 2020-10-01 15:51:43.3. *)
Definition sample_bytes : list Z :=
  [144; 1; 44; 1; 1; 12; 3; 21;
   50; 48; 50; 48; 45; 49; 48; 45; 48; 49; 32; 49; 53; 58; 53; 49; 58; 52; 51; 46; 51;
   255; 255; 255].

(** The bytes of an ASCII string. *)
Definition bytes_of_string (s : String.string) : list Z :=
  map (fun a => Z.of_nat (Ascii.nat_of_ascii a)) (String.list_ascii_of_string s).

(** A canvas whose [pixels] has [width] columns of [height] pixels each, as
    [Canvas::new] builds it and [set_pixel] keeps it. *)
Definition canvas_wf (c : Inky.Canvas) : Prop :=
  length (Inky.pixels c) = Inky.cwidth c
  /\ Forall (fun col => length col = Inky.cheight c) (Inky.pixels c).

(** The pixel at column [col], row [row] ([pixels[col][row]]). *)
Definition pixel_at (c : Inky.Canvas) (col row : nat) : Inky.Color :=
  nth row (nth col (Inky.pixels c) []) Inky.White.

(** The pixels in row-major order: rows outer, columns inner (§4.2). *)
Definition row_major (c : Inky.Canvas) : list Inky.Color :=
  flat_map (fun row => map (fun col => pixel_at c col row) (seq 0 (Inky.cwidth c)))
           (seq 0 (Inky.cheight c)).

(** A byte from up to 8 bits, the first bit least significant. *)
Fixpoint lsb_byte (bits : list Z) (j : Z) : Z :=
  match bits with
  | [] => 0
  | b :: r => b * 2 ^ j + lsb_byte r (j + 1)
  end.

(** Bits packed into bytes least-significant bit first, the last byte
    zero-padded: [ceil(n/8)] bytes. *)
Definition spec_pack_bits (bits : list Z) : list Z :=
  map (fun k => lsb_byte (firstn 8 (skipn (8 * k) bits)) 0)
      (seq 0 ((length bits + 7) / 8)).

(** The tail of [Canvas::pack]: push the partial byte, if any. *)
Definition pack_flush (st : Inky.pack_state) : list Z :=
  let '(packed, bit_pos, cur_byte) := st in
  if negb (bit_pos =? 0) then packed ++ [cur_byte] else packed.

(** [pack] as §4.2 describes it: row-major, LSB first, 0 for Black. *)
Definition spec_pack (c : Inky.Canvas) : list Z :=
  spec_pack_bits (map Inky.as_u8 (row_major c)).

(** An 8x1 canvas that is all Black. *)
Definition black_8x1 : Inky.Canvas :=
  {| Inky.cwidth := 8; Inky.cheight := 1; Inky.pixels := repeat [Inky.Black] 8 |}.

(** A 29-byte record of a black pHAT (display code 1), otherwise the sample. *)
Definition phat_bytes : list Z :=
  [144; 1; 44; 1; 1; 12; 1; 21;
   50; 48; 50; 48; 45; 49; 48; 45; 48; 49; 32; 49; 53; 58; 53; 49; 58; 52; 51; 46; 51].

(** A 29-byte record whose write-time region is all 0xFF sentinels. *)
Definition blank_time_bytes : list Z := [144; 1; 44; 1; 1; 12; 3] ++ repeat 255 22.

(** The bus events of one attempt whose read decodes to an error: the
    [0x00, 0x00] command, the read, and the 100 ms back-off. *)
Definition failed_attempt : list event :=
  [I2cWrite ADDRESS [0x00; 0x00]; I2cRead ADDRESS; Sleep 100].

(** The bus events of an attempt that ends in a bus error at [stage]: the
    [0x00, 0x00] command once the write has succeeded. *)
Definition bus_error_attempt (stage : I2cStage) : list event :=
  match stage with
  | AtSetAddress | AtWrite => []
  | AtSetAddressAgain | AtRead => [I2cWrite ADDRESS [0x00; 0x00]]
  end.

(** What [Inky::try_from] does on the lines and the bus when it succeeds:
    DC low, reset high, then the [reset] sequence (reset pulse, sleeps, the
    SoftReset command and the busy wait). *)
Definition try_from_events : list event :=
  [DcLine false; ResetLine true;
   ResetLine false; Sleep 100; ResetLine true; Sleep 100;
   SpiSend (Some 0x12) []; Wait].

(** Attempt [i] reads a full buffer that does not decode. *)
Definition decode_fails (bus : nat -> I2cAttempt) (i : nat) : Prop :=
  exists n buf err, bus i = I2cReadBytes n buf /\ 29 <= n
    /\ Eeprom.eeprom_try_from buf = Err err.

(** An I2C test double whose first read is short (10 bytes) and whose later
    reads return the 29 sample bytes. *)
Definition short_then_good (i : nat) : I2cAttempt :=
  match i with
  | O => I2cReadBytes 10 (firstn 29 sample_bytes)
  | S _ => I2cReadBytes 29 (firstn 29 sample_bytes)
  end.

(** An I2C test double whose first read has an invalid color byte and whose
    later reads return the 29 sample bytes. *)
Definition garbage_then_good (i : nat) : I2cAttempt :=
  match i with
  | O => I2cReadBytes 29 ([144; 1; 44; 1; 4] ++ skipn 5 phat_bytes)
  | S _ => I2cReadBytes 29 (firstn 29 sample_bytes)
  end.

(** The record the sample bytes decode to. *)
Definition sample_record : Eeprom.EEPROM :=
  {| Eeprom.width := 400; Eeprom.height := 300; Eeprom.color := Eeprom.Black;
     Eeprom.pcb_variant := Eeprom.V1; Eeprom.display_variant := Eeprom.What;
     Eeprom.eeprom_write_time :=
       {| Eeprom.capacity := 22;
          Eeprom.data := bytes_of_string "2020-10-01 15:51:43.3"%string |} |}.

(** Peripherals whose every call succeeds. *)
Definition all_ok_peripherals : Inky.Peripherals :=
  {| Inky.gpio_new_ok := true; Inky.gpio_get_ok := fun _ => true;
     Inky.spi_new_ok := true; Inky.spi_write_ok := true;
     Inky.set_interrupt_ok := true; Inky.poll_interrupt_ok := true;
     Inky.clear_interrupt_ok := true |}.

(** The record a seven-color panel's bytes (color byte 5) decode to. *)
Definition sample_record_seven : Eeprom.EEPROM :=
  {| Eeprom.width := 400; Eeprom.height := 300; Eeprom.color := Eeprom.SevenColor;
     Eeprom.pcb_variant := Eeprom.V1; Eeprom.display_variant := Eeprom.What;
     Eeprom.eeprom_write_time :=
       {| Eeprom.capacity := 22;
          Eeprom.data := bytes_of_string "2020-10-01 15:51:43.3"%string |} |}.

(** Lemmas about the driver monad. *)
Lemma bind_emit {A} (ev : event) (k : unit -> M A) (tr : list event) :
  bind (emit ev) k tr = k tt (tr ++ [ev]).
Proof. reflexivity. Qed.

Lemma spi_send_emit {A} (p : Inky.SpiPacket) (k : unit -> M A) (tr : list event) :
  bind (Inky.spi_send p) k tr
  = k tt (tr ++ [SpiSend (option_map Inky.command_code (Inky.pcommand p)) (Inky.pdata p)]).
Proof. reflexivity. Qed.

Lemma bind_ret {A B} (a : A) (k : A -> M B) (tr : list event) :
  bind (ret a) k tr = k a tr.
Proof. reflexivity. Qed.

(** Rewriting [tr ++ [a] ++ [b] ...] into a single append. *)
Ltac flatten_trace := repeat rewrite <- app_assoc; simpl app.

(** C1 (corrected). For every controller whose canvas is at least 8 pixels
    wide, [update] run after any earlier trace (such as that of [reset])
    completes and appends exactly the packets of §4.4 in order, with the 50 ms
    sleep and the busy wait between the trigger and deep sleep, and nothing
    else; the X-window end byte is [(width/8 - 1) mod 256], which is
    [width/8 - 1] itself when the width is below 2056. *)
Theorem update_emits_sequence (c : Inky.Canvas) (tr : list event)
  (Hw : (8 <= Inky.cwidth c)%nat) (Hh : Z.of_nat (Inky.cheight c) < 65536) :
  Inky.update (inky_of_canvas c) tr
  = (Ok tt, tr ++ spec_update_sequence c ((Z.of_nat (Inky.cwidth c) / 8 - 1) mod 256))
  /\ (Z.of_nat (Inky.cwidth c) < 2056 ->
      Inky.update (inky_of_canvas c) tr
      = (Ok tt, tr ++ spec_update_sequence c (Z.of_nat (Inky.cwidth c) / 8 - 1))).
Proof.
  assert (Hd : (1 <= Inky.cwidth c / 8)%nat) by (apply (Nat.div_le_lower_bound); lia).
  assert (Hz : Z.of_nat (Inky.cwidth c / 8 - 1) = Z.of_nat (Inky.cwidth c) / 8 - 1).
  { rewrite Nat2Z.inj_sub by lia. rewrite Nat2Z.inj_div. reflexivity. }
  assert (Hh' : Z.of_nat (Inky.cheight c) mod 65536 = Z.of_nat (Inky.cheight c))
    by (apply Z.mod_small; lia).
  assert (E : Inky.update (inky_of_canvas c) tr
              = (Ok tt, tr ++ spec_update_sequence c ((Z.of_nat (Inky.cwidth c) / 8 - 1) mod 256))).
  { unfold Inky.update, Inky.usize_sub, Inky.wait, Inky.cmd. simpl Inky.canvas.
    replace (Nat.leb 1 (Inky.cwidth c / 8)) with true by (symmetry; apply Nat.leb_le; lia).
    rewrite !spi_send_emit. cbv beta iota. rewrite bind_ret.
    rewrite !spi_send_emit, !bind_emit. unfold Inky.spi_send.
    cbn [option_map Inky.command_code Inky.pcommand Inky.pdata].
    rewrite Hh', Hz. unfold emit, spec_update_sequence. flatten_trace. reflexivity. }
  split; [exact E|]. intros Hlt. rewrite E.
  rewrite Z.mod_small; [reflexivity|]. split.
  - apply Z.le_0_sub. apply Z.div_le_lower_bound; lia.
  - assert (Z.of_nat (Inky.cwidth c) / 8 < 257) by (apply Z.div_lt_upper_bound; lia).
    lia.
Qed.

(** C1, as stated, fails: a controller whose canvas is narrower than 8 pixels
    computes [width / 8 - 1] in [usize] and panics after the LUT packet, so
    the X/Y windows, buffer, trigger and deep-sleep packets are never sent. *)
Lemma update_narrow_canvas_counterexample :
  Inky.update (inky_of_canvas (Inky.canvas_new 4 2)) []
  = (Panic, firstn 11 (spec_update_sequence (Inky.canvas_new 4 2) (-1)))
  /\ forall x : Z,
       Inky.update (inky_of_canvas (Inky.canvas_new 4 2)) []
       <> (Ok tt, spec_update_sequence (Inky.canvas_new 4 2) x).
Proof.
  split.
  - reflexivity.
  - intros x. vm_compute. discriminate.
Qed.

Lemma update_emits_sequence_witness :
  Inky.update (inky_of_canvas (Inky.canvas_new 16 2)) []
  = (Ok tt, [] ++ spec_update_sequence (Inky.canvas_new 16 2) 1).
Proof.
  destruct (update_emits_sequence (Inky.canvas_new 16 2) []
              ltac:(simpl; lia) ltac:(simpl; lia)) as [H _].
  exact H.
Defined.

(** ** The decoder's field layout *)

Lemma color_from_u8_ok (v : Z) (c : Eeprom.Color) :
  Eeprom.color_from_u8 v = Ok c -> Eeprom.color_to_u8 c = v.
Proof.
  unfold Eeprom.color_from_u8.
  destruct (Z.eqb_spec v 1); [intros [=<-]; simpl; lia|].
  destruct (Z.eqb_spec v 2); [intros [=<-]; simpl; lia|].
  destruct (Z.eqb_spec v 3); [intros [=<-]; simpl; lia|].
  destruct (Z.eqb_spec v 5); [intros [=<-]; simpl; lia|].
  discriminate.
Qed.

Lemma pcb_variant_from_u8_ok (v : Z) (p : Eeprom.PcbVariant) :
  Eeprom.pcb_variant_from_u8 v = Ok p -> Eeprom.pcb_variant_to_u8 p = v.
Proof.
  unfold Eeprom.pcb_variant_from_u8.
  destruct (Z.eqb_spec v 12) as [->|]; intros H; [destruct p; reflexivity|discriminate H].
Qed.

(** chrono's parse fails whenever the items contain [Item::Error]: either
    an earlier item fails or the error item is reached. *)
Lemma parse_items_error (items : list WriteTime.Item) :
  In WriteTime.Error items ->
  forall p s, exists k, WriteTime.parse_items items p s = WriteTime.PErr k.
Proof.
  induction items as [|it items IH]; intros Hin p s; [destruct Hin|].
  destruct it as [pre|sp|n|]; cbn [WriteTime.parse_items];
    [| | |exists WriteTime.BadFormat; reflexivity];
    (assert (Hin' : In WriteTime.Error items)
       by (destruct Hin as [Heq|]; [discriminate Heq|assumption])).
  - destruct (Nat.ltb _ _); [eexists; reflexivity|].
    destruct (WriteTime.starts_with _ _); [apply IH; exact Hin'|eexists; reflexivity].
  - apply IH; exact Hin'.
  - destruct (WriteTime.scan_numeric _ _) as [[v s']|k]; cbn [WriteTime.pbind];
      [|eexists; reflexivity].
    destruct (WriteTime.set_field _ _ _) as [p'|k]; cbn [WriteTime.pbind];
      [apply IH; exact Hin'|eexists; reflexivity].
Qed.

(** C2 (code bug). A successful decode of a buffer of at least 29 bytes
    takes the width from bytes 0-1 and the height from bytes 2-3
    (little-endian), the color from byte 4, the PCB variant from byte 5 and
    the display variant from byte 6; the sample bytes of the spec decode to
    a 400x300 black wHAT whose write-time bytes are the text
    2020-10-01 15:51:43.3. But [eeprom_write_time] does not parse that text:
    its format holds [%.1f], which chrono reads as [Item::Error], so the
    accessor returns [BadFormat] for the sample and an error for every
    record. *)
Theorem eeprom_decode_layout (buf : list Z) (e : Eeprom.EEPROM)
  (Hlen : (29 <= length buf)%nat) (Hdec : Eeprom.eeprom_try_from buf = Ok e) :
  (exists b0 b1 b2 b3 b4 b5 b6 rest,
      buf = b0 :: b1 :: b2 :: b3 :: b4 :: b5 :: b6 :: rest
      /\ Eeprom.width e = b0 + 256 * b1
      /\ Eeprom.height e = b2 + 256 * b3
      /\ Eeprom.color_to_u8 (Eeprom.color e) = b4
      /\ Eeprom.pcb_variant_to_u8 (Eeprom.pcb_variant e) = b5
      /\ Eeprom.display_variant_from_u8 b6 = Ok (Eeprom.display_variant e))
  /\ (exists s, Eeprom.eeprom_try_from sample_bytes = Ok s
      /\ Eeprom.width s = 400 /\ Eeprom.height s = 300
      /\ Eeprom.color s = Eeprom.Black /\ Eeprom.pcb_variant s = Eeprom.V1
      /\ Eeprom.display_variant s = Eeprom.What
      /\ Eeprom.data (Eeprom.eeprom_write_time s) = bytes_of_string "2020-10-01 15:51:43.3"%string
      /\ eeprom_write_time s = WriteTime.PErr WriteTime.BadFormat)
  /\ (forall e', exists k, eeprom_write_time e' = WriteTime.PErr k).
Proof.
  split.
  - destruct buf as [|b0 [|b1 [|b2 [|b3 [|b4 [|b5 [|b6 rest]]]]]]];
      simpl in Hlen; try lia.
    exists b0, b1, b2, b3, b4, b5, b6, rest. split; [reflexivity|].
    unfold Eeprom.eeprom_try_from in Hdec. simpl in Hdec.
    destruct (Eeprom.color_from_u8 b4) as [c| |] eqn:Hc; try discriminate.
    simpl in Hdec.
    destruct (Eeprom.pcb_variant_from_u8 b5) as [p| |] eqn:Hp; try discriminate.
    simpl in Hdec.
    destruct (Eeprom.display_variant_from_u8 b6) as [d| |] eqn:Hd; try discriminate.
    simpl in Hdec.
    destruct (Eeprom.pascal_try_from _) as [wt| |]; try discriminate.
    simpl in Hdec. injection Hdec as <-. simpl.
    repeat split; auto using color_from_u8_ok, pcb_variant_from_u8_ok.
  - split.
    + eexists. split; [reflexivity|]. repeat split; reflexivity.
    + intros e'. unfold eeprom_write_time, WriteTime.parse_from_str.
      destruct (parse_items_error WriteTime.write_time_items
                  ltac:(simpl; tauto) WriteTime.parsed_new
                  (Eeprom.data (Eeprom.eeprom_write_time e'))) as [k ->].
      exists k. reflexivity.
Qed.

Lemma eeprom_decode_layout_witness :
  Eeprom.eeprom_try_from sample_bytes
  = Ok {| Eeprom.width := 400; Eeprom.height := 300; Eeprom.color := Eeprom.Black;
          Eeprom.pcb_variant := Eeprom.V1; Eeprom.display_variant := Eeprom.What;
          Eeprom.eeprom_write_time :=
            {| Eeprom.capacity := 22;
               Eeprom.data := bytes_of_string "2020-10-01 15:51:43.3"%string |} |}
  /\ Eeprom.width {| Eeprom.width := 400; Eeprom.height := 300; Eeprom.color := Eeprom.Black;
          Eeprom.pcb_variant := Eeprom.V1; Eeprom.display_variant := Eeprom.What;
          Eeprom.eeprom_write_time :=
            {| Eeprom.capacity := 22;
               Eeprom.data := bytes_of_string "2020-10-01 15:51:43.3"%string |} |} = 144 + 256 * 1.
Proof.
  assert (H : Eeprom.eeprom_try_from sample_bytes
  = Ok {| Eeprom.width := 400; Eeprom.height := 300; Eeprom.color := Eeprom.Black;
          Eeprom.pcb_variant := Eeprom.V1; Eeprom.display_variant := Eeprom.What;
          Eeprom.eeprom_write_time :=
            {| Eeprom.capacity := 22;
               Eeprom.data := bytes_of_string "2020-10-01 15:51:43.3"%string |} |})
    by reflexivity.
  split; [exact H|].
  destruct (eeprom_decode_layout sample_bytes _ ltac:(simpl; lia) H)
    as [(b0 & b1 & b2 & b3 & b4 & b5 & b6 & rest & Hb & Hw & _) _].
  injection Hb; intros; subst. exact Hw.
Defined.

(** ** The bit-packer *)

Lemma lor_pow2_low (a n : Z) :
  0 <= n -> 0 <= a < 2 ^ n -> Z.lor a (2 ^ n) = a + 2 ^ n.
Proof.
  intros Hn Ha.
  assert (Hl : Z.land a (2 ^ n) = 0).
  { apply Z.bits_inj'; intros m Hm.
    rewrite Z.land_spec, Z.pow2_bits_eqb by lia. rewrite Z.bits_0.
    destruct (Z.eqb_spec n m) as [<-|]; [|apply andb_false_r].
    rewrite andb_true_r.
    destruct (Z.eq_dec a 0) as [->|Hne]; [apply Z.bits_0|].
    apply Z.bits_above_log2; [lia|]. apply Z.log2_lt_pow2; lia. }
  rewrite Z.add_nocarry_lxor by exact Hl.
  apply Z.bits_inj'; intros m Hm.
  rewrite Z.lor_spec, Z.lxor_spec.
  assert (Hb := f_equal (fun x => Z.testbit x m) Hl). simpl in Hb.
  rewrite Z.land_spec, Z.bits_0 in Hb.
  destruct (Z.testbit a m), (Z.testbit (2 ^ n) m); simpl in *; congruence.
Qed.

(** Or-ing a pixel bit in at [bit_pos] adds it. *)
Lemma pack_bit_add (cur bp : Z) (b : Inky.Color) :
  0 <= bp -> 0 <= cur < 2 ^ bp ->
  Z.lor cur (Z.shiftl (Inky.as_u8 b) bp) = cur + Inky.as_u8 b * 2 ^ bp.
Proof.
  intros Hbp Hc. rewrite Z.shiftl_mul_pow2 by exact Hbp.
  destruct b; simpl Inky.as_u8;
    try (rewrite Z.mul_1_l; apply lor_pow2_low; assumption).
  rewrite Z.mul_0_l, Z.lor_0_r. lia.
Qed.

Lemma pack_step_eq (packed : list Z) (bp cur : Z) (b : Inky.Color) :
  Inky.pack_step (packed, bp, cur) b
  = let cur' := Z.lor cur (Z.shiftl (Inky.as_u8 b) bp) in
    if bp + 1 =? 8 then (packed ++ [cur'], 0, 0) else (packed, bp + 1, cur').
Proof. reflexivity. Qed.

Lemma as_u8_bit (b : Inky.Color) : 0 <= Inky.as_u8 b <= 1.
Proof. destruct b; simpl; lia. Qed.

(** The loop invariant of [pack]'s inner loop: whole bytes are pushed as
    they fill, [bit_pos] counts the pixels since, and [cur_byte] only has
    its low [bit_pos] bits set. *)
Lemma pack_steps (l : list Inky.Color) (packed : list Z) (bp cur : Z) :
  0 <= bp < 8 -> 0 <= cur < 2 ^ bp ->
  let '(packed', bp', cur') := fold_left Inky.pack_step l (packed, bp, cur) in
  exists added, packed' = packed ++ added
    /\ Z.of_nat (length added) = (bp + Z.of_nat (length l)) / 8
    /\ bp' = (bp + Z.of_nat (length l)) mod 8
    /\ 0 <= cur' < 2 ^ bp'.
Proof.
  revert packed bp cur.
  induction l as [|b l IH]; intros packed bp cur Hbp Hcur.
  - exists []. rewrite app_nil_r. simpl Z.of_nat.
    rewrite Z.add_0_r, Z.div_small, Z.mod_small by lia. auto.
  - change (fold_left Inky.pack_step (b :: l) (packed, bp, cur))
      with (fold_left Inky.pack_step l (Inky.pack_step (packed, bp, cur) b)).
    rewrite pack_step_eq, pack_bit_add by lia. cbv zeta.
    assert (Hb := as_u8_bit b).
    assert (Hp : 2 ^ (bp + 1) = 2 * 2 ^ bp) by (rewrite Z.pow_add_r by lia; lia).
    assert (Hlen : Z.of_nat (length (b :: l)) = 1 + Z.of_nat (length l))
      by (simpl length; lia).
    rewrite Hlen.
    destruct (Z.eqb_spec (bp + 1) 8) as [E|E].
    + specialize (IH (packed ++ [cur + Inky.as_u8 b * 2 ^ bp]) 0 0
                    ltac:(lia) ltac:(simpl; lia)).
      destruct (fold_left _ l _) as [[packed' bp'] cur'].
      destruct IH as (added & -> & Hl & -> & Hc).
      exists (cur + Inky.as_u8 b * 2 ^ bp :: added).
      rewrite <- app_assoc. simpl app. simpl length.
      replace (bp + (1 + Z.of_nat (length l))) with (Z.of_nat (length l) + 1 * 8) by lia.
      rewrite Z.div_add, Z.mod_add by lia. simpl Z.add in Hl, Hc |- *.
      repeat split; try lia.
    + specialize (IH packed (bp + 1) (cur + Inky.as_u8 b * 2 ^ bp) ltac:(lia)
                    ltac:(nia)).
      destruct (fold_left _ l _) as [[packed' bp'] cur'].
      replace (bp + (1 + Z.of_nat (length l))) with (bp + 1 + Z.of_nat (length l)) by lia.
      exact IH.
Qed.

Lemma pack_rows_concat (px : list (list Inky.Color)) (st : Inky.pack_state) :
  fold_left (fun st row => fold_left Inky.pack_step row st) px st
  = fold_left Inky.pack_step (concat px) st.
Proof.
  revert st. induction px as [|row px IH]; intros st; [reflexivity|].
  simpl. rewrite fold_left_app. apply IH.
Qed.

Lemma length_concat_wf (px : list (list Inky.Color)) (h : nat) :
  Forall (fun col => length col = h) px -> length (concat px) = (length px * h)%nat.
Proof.
  induction 1 as [|col px Hc _ IH]; [reflexivity|].
  simpl. rewrite length_app, Hc, IH. reflexivity.
Qed.

Lemma canvas_new_wf (w h : nat) : canvas_wf (Inky.canvas_new w h).
Proof.
  split; simpl.
  - apply repeat_length.
  - apply Forall_forall. intros col Hin.
    apply repeat_spec in Hin. subst col. apply repeat_length.
Qed.

Lemma replace_at_length {A} (i : nat) (x : A) (l l' : list A) :
  Inky.replace_at i x l = Ok l' -> length l' = length l.
Proof.
  revert i l'. induction l as [|y l IH]; intros i l' H; [destruct i; discriminate H|].
  destruct i as [|i]; simpl in H.
  - injection H as <-. reflexivity.
  - destruct (Inky.replace_at i x l) as [r| |] eqn:E; try discriminate.
    injection H as <-. simpl. f_equal. exact (IH _ _ E).
Qed.

Lemma replace_at_in {A} (i : nat) (x : A) (l l' : list A) (y : A) :
  Inky.replace_at i x l = Ok l' -> In y l' -> y = x \/ In y l.
Proof.
  revert i l'. induction l as [|z l IH]; intros i l' H Hin; [destruct i; discriminate H|].
  destruct i as [|i]; simpl in H.
  - injection H as <-. destruct Hin as [<-|Hin]; [left; reflexivity|right; right; exact Hin].
  - destruct (Inky.replace_at i x l) as [r| |] eqn:E; try discriminate.
    injection H as <-. destruct Hin as [<-|Hin]; [right; left; reflexivity|].
    destruct (IH _ _ E Hin) as [|]; [left|right; right]; assumption.
Qed.

(** [set_pixel] keeps the canvas dimensions. *)
Lemma set_pixel_wf (c c' : Inky.Canvas) (col row : nat) (color : Inky.Color) :
  canvas_wf c -> Inky.set_pixel c col row color = Ok c' -> canvas_wf c'.
Proof.
  intros [Hw Hh] H. unfold Inky.set_pixel in H.
  destruct (nth_error (Inky.pixels c) col) as [column|] eqn:En; [|discriminate].
  simpl in H.
  destruct (Inky.replace_at row color column) as [column'| |] eqn:E1; try discriminate.
  simpl in H.
  destruct (Inky.replace_at col column' (Inky.pixels c)) as [px| |] eqn:E2; try discriminate.
  simpl in H. injection H as <-. split; simpl.
  - rewrite (replace_at_length _ _ _ _ E2). exact Hw.
  - apply Forall_forall. intros y Hy.
    destruct (replace_at_in _ _ _ _ _ E2 Hy) as [->|Hin].
    + rewrite (replace_at_length _ _ _ _ E1).
      apply nth_error_In in En. rewrite Forall_forall in Hh. apply Hh, En.
    + rewrite Forall_forall in Hh. apply Hh, Hin.
Qed.

(** C4. For a canvas of [width] columns of [height] pixels, [pack] returns
    [ceil(width*height/8)] bytes, and when [width*height] is not a multiple
    of 8 the final byte has only its low [(width*height) mod 8] bits in use;
    an 8x1 all-Black canvas packs to [0x00] and a fresh (all-White) 8x1
    canvas to [0xFF]. *)
Theorem pack_length_padding (c : Inky.Canvas) (Hwf : canvas_wf c) :
  Z.of_nat (length (Inky.pack c)) = (Z.of_nat (Inky.cwidth c * Inky.cheight c) + 7) / 8
  /\ (Z.of_nat (Inky.cwidth c * Inky.cheight c) mod 8 <> 0 ->
      exists pre last, Inky.pack c = pre ++ [last]
        /\ 0 <= last < 2 ^ (Z.of_nat (Inky.cwidth c * Inky.cheight c) mod 8))
  /\ Inky.pack black_8x1 = [0x00]
  /\ Inky.pack (Inky.canvas_new 8 1) = [0xFF].
Proof.
  destruct Hwf as [Hw Hh].
  assert (HL : length (concat (Inky.pixels c)) = (Inky.cwidth c * Inky.cheight c)%nat)
    by (rewrite (length_concat_wf _ _ Hh), Hw; reflexivity).
  set (L := Z.of_nat (Inky.cwidth c * Inky.cheight c)).
  assert (HL0 : 0 <= L) by lia.
  unfold Inky.pack. rewrite pack_rows_concat.
  pose proof (pack_steps (concat (Inky.pixels c)) [] 0 0 ltac:(lia) ltac:(simpl; lia)) as Hs.
  destruct (fold_left _ _ _) as [[packed bp] cur].
  destruct Hs as (added & -> & Hlen & -> & Hcur).
  rewrite HL in Hlen. fold L in Hlen. simpl app. simpl Z.add in Hlen.
  change (0 + Z.of_nat (length (concat (Inky.pixels c)))) with (Z.of_nat (length (concat (Inky.pixels c)))).
  rewrite HL. fold L.
  split; [|split; [|split; reflexivity]].
  - destruct (Z.eqb_spec (L mod 8) 0) as [E|E]; simpl negb; cbv iota.
    + rewrite Hlen. Z.div_mod_to_equations. lia.
    + rewrite length_app. simpl length. rewrite Nat2Z.inj_add, Hlen.
      Z.div_mod_to_equations. lia.
  - intros Hne. exists added, cur.
    replace (L mod 8 =? 0) with false by (symmetry; apply Z.eqb_neq; exact Hne).
    split; [reflexivity|]. rewrite HL in Hcur. exact Hcur.
Qed.

Lemma pack_length_padding_witness :
  Z.of_nat (length (Inky.pack (Inky.canvas_new 3 3))) = (Z.of_nat (3 * 3) + 7) / 8.
Proof.
  destruct (pack_length_padding (Inky.canvas_new 3 3) (canvas_new_wf 3 3)) as [H _].
  exact H.
Defined.

(** C3 (code bug). [pixels] is stored [pixels[col][row]], so the loop
    [for row in &self.pixels] walks columns outer and rows inner. On an 8x2
    canvas with only pixel (col 1, row 0) Black, [pack] yields
    [[0xFB; 0xFF]] (the Black pixel is bit 2, its column-major index) where
    row-major LSB-first packing gives [[0xFD; 0xFF]] (bit 1). *)
Theorem pack_column_major_order :
  exists c, Inky.set_pixel (Inky.canvas_new 8 2) 1 0 Inky.Black = Ok c
    /\ Inky.pack c = [0xFB; 0xFF]
    /\ spec_pack c = [0xFD; 0xFF].
Proof.
  eexists. split; [reflexivity|]. split; reflexivity.
Qed.

(** ** Encoding and decoding the record *)

(** C5 (code bug). [From<EEPROM> for Vec<u8>] writes the display variant as
    its implicit [#[repr(u8)]] discriminant (Phat = 0, PhatSsd1608 = 1, ...),
    not as an EEPROM display code, so the record decoded from a pHAT buffer
    (code 1) encodes to display byte 0, which the decoder rejects. *)
Theorem encode_decode_phat_fails :
  exists e, Eeprom.eeprom_try_from phat_bytes = Ok e
    /\ Eeprom.display_variant e = Eeprom.Phat
    /\ nth_error (Eeprom.eeprom_to_bytes e) 6 = Some 0
    /\ Eeprom.eeprom_try_from (Eeprom.eeprom_to_bytes e) = Err (EInvalidDisplayVariant 0).
Proof.
  eexists. split; [reflexivity|]. repeat split; reflexivity.
Qed.

(** C6, as stated, fails: the capacity of a [PascalString] built from a
    slice is the slice's length, not its first byte, so a 10-byte slice whose
    first byte is 5 keeps all 9 bytes after it. *)
Lemma pascal_first_byte_ignored :
  Eeprom.pascal_try_from [5; 1; 2; 3; 4; 5; 6; 7; 8; 9]
  = Ok {| Eeprom.capacity := 10; Eeprom.data := [1; 2; 3; 4; 5; 6; 7; 8; 9] |}
  /\ length (Eeprom.data {| Eeprom.capacity := 10;
                            Eeprom.data := [1; 2; 3; 4; 5; 6; 7; 8; 9] |}) <> 4%nat.
Proof. split; [reflexivity|discriminate]. Qed.

(** A non-empty slice of fewer than 254 bytes becomes a [PascalString] of
    capacity [len] holding the bytes after the first. *)
Lemma pascal_try_from_ok (v : list Z) :
  (1 <= length v < 254)%nat ->
  Eeprom.pascal_try_from v
  = Ok {| Eeprom.capacity := Z.of_nat (length v); Eeprom.data := tl v |}.
Proof.
  intros [H1 H2].
  assert (Hl : Z.of_nat (length (tl v)) = Z.of_nat (length v) - 1)
    by (destruct v as [|a v]; cbn [length tl] in *; lia).
  unfold Eeprom.pascal_try_from.
  replace (Nat.ltb (length v) 254) with true by (symmetry; apply Nat.ltb_lt; lia).
  simpl negb; cbv iota. unfold Eeprom.with_capacity.
  replace (Z.of_nat (length v) =? 0) with false by (symmetry; apply Z.eqb_neq; lia).
  cbn [obind]. simpl Eeprom.capacity.
  destruct (Z.ltb_spec 1 (Z.of_nat (length v))) as [Hgt|Hle].
  - unfold slice_from.
    replace (Nat.leb 1 (length v)) with true by (symmetry; apply Nat.leb_le; lia).
    cbn [obind]. unfold Eeprom.set_capacity.
    assert (Hs : skipn 1 v = tl v) by (destruct v; reflexivity).
    rewrite Hs, Hl, Z.mod_small by lia.
    replace (Z.of_nat (length v) - 1 + 1 <? 256) with true
      by (symmetry; apply Z.ltb_lt; lia).
    unfold Eeprom.reserve. cbn [Eeprom.data length].
    rewrite (proj2 (Z.ltb_ge Eeprom.isize_max _)) by (unfold Eeprom.isize_max; lia).
    cbn [obind]. unfold Eeprom.set_data. simpl Eeprom.capacity.
    replace (Z.of_nat (length v) - 1 + 1 =? 0) with false
      by (symmetry; apply Z.eqb_neq; lia).
    replace (Z.of_nat (length v) - 1 + 1 - 1) with (Z.of_nat (length (tl v))) by lia.
    rewrite Nat2Z.id, firstn_all.
    do 2 f_equal. lia.
  - destruct v as [|a [|b v]]; cbn [length tl] in *; try lia. reflexivity.
Qed.

(** C6 (corrected). A [PascalString] built from a slice of 1 to 253 bytes
    has capacity equal to the slice length and holds every byte after the
    first, whatever the first byte's value; so [data.len() = capacity - 1].
    Slices of 254 bytes or more are rejected with an error. *)
Theorem pascal_try_from_spec (v : list Z) :
  ((1 <= length v < 254)%nat ->
   Eeprom.pascal_try_from v
   = Ok {| Eeprom.capacity := Z.of_nat (length v); Eeprom.data := tl v |}
   /\ Z.of_nat (length (tl v)) = Z.of_nat (length v) - 1)
  /\ ((254 <= length v)%nat -> Eeprom.pascal_try_from v = Err ETooLarge).
Proof.
  split.
  - intros H. split; [exact (pascal_try_from_ok v H)|].
    destruct v as [|a v]; cbn [length tl] in *; lia.
  - intros H. unfold Eeprom.pascal_try_from.
    replace (Nat.ltb (length v) 254) with false by (symmetry; apply Nat.ltb_ge; lia).
    reflexivity.
Qed.

Lemma pascal_try_from_spec_witness :
  Eeprom.pascal_try_from [5; 1; 2; 3; 4; 5; 6; 7; 8; 9]
  = Ok {| Eeprom.capacity := Z.of_nat 10; Eeprom.data := [1; 2; 3; 4; 5; 6; 7; 8; 9] |}.
Proof.
  destruct (pascal_try_from_spec [5; 1; 2; 3; 4; 5; 6; 7; 8; 9]) as [H _].
  destruct (H ltac:(simpl; lia)) as [E _]. exact E.
Defined.

Lemma color_from_u8_invalid (b : Z) :
  ~ In b [1; 2; 3; 5] -> Eeprom.color_from_u8 b = Err (EInvalidColor b).
Proof.
  intros Hn. unfold Eeprom.color_from_u8.
  destruct (Z.eqb_spec b 1); [subst; simpl in Hn; tauto|].
  destruct (Z.eqb_spec b 2); [subst; simpl in Hn; tauto|].
  destruct (Z.eqb_spec b 3); [subst; simpl in Hn; tauto|].
  destruct (Z.eqb_spec b 5); [subst; simpl in Hn; tauto|].
  reflexivity.
Qed.

(** C7. For a buffer of at least 29 bytes whose byte 4 is not 1, 2, 3 or 5,
    decoding fails with the invalid-color error for that byte. *)
Theorem decode_invalid_color (buf : list Z) (b : Z)
  (Hlen : (29 <= length buf)%nat) (Hb : nth_error buf 4 = Some b)
  (Hn : ~ In b [1; 2; 3; 5]) :
  Eeprom.eeprom_try_from buf = Err (EInvalidColor b).
Proof.
  destruct buf as [|b0 [|b1 [|b2 [|b3 [|b4 [|b5 [|b6 rest]]]]]]];
    simpl in Hlen; try lia.
  simpl in Hb. injection Hb as ->.
  unfold Eeprom.eeprom_try_from. simpl.
  rewrite (color_from_u8_invalid _ Hn). reflexivity.
Qed.

Lemma decode_invalid_color_witness :
  Eeprom.eeprom_try_from ([144; 1; 44; 1; 4] ++ skipn 5 phat_bytes) = Err (EInvalidColor 4).
Proof.
  apply decode_invalid_color; [simpl; lia|reflexivity|simpl; lia].
Defined.

(** ** Acquisition retries *)

Lemma tries_loop_skip (max : nat) (bus : nat -> I2cAttempt) (k : nat) :
  forall left i tr,
  (forall j, (j < k)%nat -> decode_fails bus (i + j)) -> (k <= left)%nat ->
  tries_loop max bus left i tr
  = tries_loop max bus (left - k) (i + k) (tr ++ concat (repeat failed_attempt k)).
Proof.
  induction k as [|k IH]; intros left i tr Hf Hk.
  - rewrite Nat.sub_0_r, Nat.add_0_r, app_nil_r. reflexivity.
  - destruct left as [|left]; [lia|].
    destruct (Hf 0%nat ltac:(lia)) as (n & buf & err & Hb & Hn & Hd).
    rewrite Nat.add_0_r in Hb.
    simpl tries_loop. rewrite Hb.
    rewrite !bind_emit.
    replace (n <? 29) with false by (symmetry; apply Z.ltb_ge; lia).
    rewrite Hd, bind_emit.
    rewrite (IH left (S i)).
    + replace (S i + k)%nat with (i + S k)%nat by lia.
      simpl Nat.sub. simpl repeat. simpl concat.
      unfold failed_attempt. flatten_trace. reflexivity.
    + intros j Hj. replace (S i + j)%nat with (i + S j)%nat by lia. apply Hf. lia.
    + lia.
Qed.

(** C8, as stated, fails: a short read is not retried. With a first read of
    10 bytes and good 29-byte reads afterwards, [try_new] fails at once with
    the read-length error, without the 100 ms wait and without a second
    attempt. *)
Lemma short_read_not_retried :
  try_new true short_then_good []
  = (Err (EShortRead 10), [I2cWrite ADDRESS [0x00; 0x00]; I2cRead ADDRESS])
  /\ Eeprom.eeprom_try_from (firstn 29 sample_bytes) <> Err (EShortRead 10)
  /\ is_ok (Eeprom.eeprom_try_from (firstn 29 sample_bytes)) = true.
Proof. split; [reflexivity|split; [discriminate|reflexivity]]. Qed.

(** C8 (corrected). [try_new] is [try_new_tries] with 10 attempts. A read
    that decodes to an error is followed by a 100 ms wait and a new attempt;
    the first read that decodes is returned; after [max_tries] attempts that
    all fail to decode, the error names [max_tries]. A short read (fewer
    than 29 bytes) ends the acquisition at once with the read-length error,
    without a wait or a further attempt; so does a bus error, whether
    opening the bus fails or one of the calls of an attempt does (the
    [0x00, 0x00] write stays on the bus when it came before the failing
    call). *)
Theorem try_new_tries_retry (max : nat) (bus : nat -> I2cAttempt) (tr : list event) :
  (forall bus' tr', try_new true bus' tr' = try_new_tries true bus' 10 tr')
  /\ ((forall i, (i < max)%nat -> decode_fails bus i) ->
      try_new_tries true bus max tr
      = (Err (ETries max), tr ++ concat (repeat failed_attempt max)))
  /\ (forall k n buf e, (k < max)%nat -> (forall i, (i < k)%nat -> decode_fails bus i) ->
      bus k = I2cReadBytes n buf -> 29 <= n -> Eeprom.eeprom_try_from buf = Ok e ->
      try_new_tries true bus max tr
      = (Ok e, tr ++ concat (repeat failed_attempt k)
                  ++ [I2cWrite ADDRESS [0x00; 0x00]; I2cRead ADDRESS]))
  /\ (forall k n buf, (k < max)%nat -> (forall i, (i < k)%nat -> decode_fails bus i) ->
      bus k = I2cReadBytes n buf -> n < 29 ->
      try_new_tries true bus max tr
      = (Err (EShortRead n), tr ++ concat (repeat failed_attempt k)
                  ++ [I2cWrite ADDRESS [0x00; 0x00]; I2cRead ADDRESS]))
  /\ try_new_tries false bus max tr = (Err EBus, tr)
  /\ (forall k stage, (k < max)%nat -> (forall i, (i < k)%nat -> decode_fails bus i) ->
      bus k = I2cFail stage ->
      try_new_tries true bus max tr
      = (Err EBus, tr ++ concat (repeat failed_attempt k) ++ bus_error_attempt stage)).
Proof.
  split; [reflexivity|]. split; [|split; [|split; [|split]]].
  - intros Hf. unfold try_new_tries, Inky.acquire. rewrite bind_ret.
    rewrite (tries_loop_skip max bus max max 0 tr) by (simpl; auto).
    rewrite Nat.sub_diag. reflexivity.
  - intros k n buf e Hk Hf Hb Hn Hd. unfold try_new_tries, Inky.acquire.
    rewrite bind_ret.
    rewrite (tries_loop_skip max bus k max 0 tr) by (simpl; auto; lia).
    destruct (max - k)%nat as [|left] eqn:E; [lia|].
    simpl tries_loop. rewrite Hb, !bind_emit.
    replace (n <? 29) with false by (symmetry; apply Z.ltb_ge; lia).
    rewrite Hd. unfold ret. flatten_trace. reflexivity.
  - intros k n buf Hk Hf Hb Hn. unfold try_new_tries, Inky.acquire.
    rewrite bind_ret.
    rewrite (tries_loop_skip max bus k max 0 tr) by (simpl; auto; lia).
    destruct (max - k)%nat as [|left] eqn:E; [lia|].
    simpl tries_loop. rewrite Hb, !bind_emit.
    replace (n <? 29) with true by (symmetry; apply Z.ltb_lt; lia).
    unfold raise. flatten_trace. reflexivity.
  - reflexivity.
  - intros k stage Hk Hf Hb. unfold try_new_tries, Inky.acquire.
    rewrite bind_ret.
    rewrite (tries_loop_skip max bus k max 0 tr) by (simpl; auto; lia).
    destruct (max - k)%nat as [|left] eqn:E; [lia|].
    simpl tries_loop. rewrite Hb.
    destruct stage; rewrite ?bind_emit; unfold raise; simpl;
      rewrite ?app_nil_r, ?app_assoc; reflexivity.
Qed.

Lemma try_new_tries_retry_witness :
  try_new_tries true garbage_then_good 3 []
  = (Ok sample_record,
     [] ++ concat (repeat failed_attempt 1)
        ++ [I2cWrite ADDRESS [0x00; 0x00]; I2cRead ADDRESS]).
Proof.
  destruct (try_new_tries_retry 3 garbage_then_good []) as [_ [_ [H _]]].
  apply (H 1%nat 29 (firstn 29 sample_bytes)).
  - lia.
  - intros i Hi. assert (i = 0%nat) as -> by lia.
    exists 29, ([144; 1; 44; 1; 4] ++ skipn 5 phat_bytes), (EInvalidColor 4).
    split; [reflexivity|split; [lia|reflexivity]].
  - reflexivity.
  - lia.
  - reflexivity.
Defined.

(** ** Panics in the decoder *)

(** C9 (code bug). A 29-byte buffer whose write-time region is all 0xFF
    leaves an empty slice for [PascalString::try_from]; [with_capacity(0)]
    then computes [0usize - 1] and the decoder panics instead of returning
    an error. *)
Theorem decode_blank_time_panics :
  length blank_time_bytes = 29%nat
  /\ filter (fun v => negb (v =? 255)) (skipn 7 blank_time_bytes) = []
  /\ Eeprom.eeprom_try_from blank_time_bytes = Panic.
Proof. split; [reflexivity|split; reflexivity]. Qed.

(** The enum decoders return [Ok] or [Err], never [Panic]. *)
Ltac no_panic H :=
  unfold Eeprom.color_from_u8, Eeprom.pcb_variant_from_u8,
         Eeprom.display_variant_from_u8 in H;
  repeat match type of H with
         | context [if ?b then _ else _] => destruct b
         end;
  discriminate H.

(** Every other buffer of at least 29 bytes decodes to [Ok] or an error:
    the empty write-time slice is the decoder's only panic. *)
Lemma decode_no_panic_nonempty_time (buf : list Z) :
  (29 <= length buf)%nat ->
  filter (fun v => negb (v =? 255)) (skipn 7 buf) <> [] ->
  Eeprom.eeprom_try_from buf <> Panic.
Proof.
  intros Hlen Hne.
  destruct buf as [|b0 [|b1 [|b2 [|b3 [|b4 [|b5 [|b6 rest]]]]]]];
    cbn [length] in Hlen; try lia.
  unfold Eeprom.eeprom_try_from. simpl.
  destruct (Eeprom.color_from_u8 b4) eqn:E4; try discriminate; [|no_panic E4].
  simpl.
  destruct (Eeprom.pcb_variant_from_u8 b5) eqn:E5; try discriminate; [|no_panic E5].
  simpl.
  destruct (Eeprom.display_variant_from_u8 b6) eqn:E6; try discriminate; [|no_panic E6].
  simpl. simpl skipn in Hne.
  remember (filter _ rest) as t eqn:Et. clear Et.
  destruct (Nat.ltb_spec (length t) 254) as [Hs|Hs].
  - destruct t as [|x t]; [congruence|].
    rewrite pascal_try_from_ok by (cbn [length] in *; lia).
    discriminate.
  - unfold Eeprom.pascal_try_from.
    replace (Nat.ltb (length t) 254) with false by (symmetry; apply Nat.ltb_ge; lia).
    discriminate.
Qed.

(** ** From the EEPROM record to the controller *)

(** A buffer that decodes has at least 8 bytes (the enum bytes and a
    non-empty write-time slice). *)
Lemma decode_ok_length (buf : list Z) (e : Eeprom.EEPROM) :
  Eeprom.eeprom_try_from buf = Ok e -> (8 <= length buf)%nat.
Proof.
  intros Hdec.
  destruct buf as [|b0 [|b1 [|b2 [|b3 [|b4 [|b5 [|b6 [|b7 rest]]]]]]]];
    cbn [length]; try lia;
    unfold Eeprom.eeprom_try_from in Hdec; simpl in Hdec;
    repeat match type of Hdec with
           | context [obind (?f ?x) _] => destruct (f x); simpl in Hdec
           end;
    discriminate Hdec.
Qed.

Lemma decode_color_byte (buf : list Z) (e : Eeprom.EEPROM) (b : Z) :
  Eeprom.eeprom_try_from buf = Ok e -> nth_error buf 4 = Some b ->
  Eeprom.color_from_u8 b = Ok (Eeprom.color e).
Proof.
  intros Hdec Hb.
  pose proof (decode_ok_length _ _ Hdec) as Hlen.
  destruct buf as [|b0 [|b1 [|b2 [|b3 [|b4 [|b5 [|b6 rest]]]]]]];
    cbn [length] in Hlen; try lia.
  simpl in Hb. injection Hb as ->.
  unfold Eeprom.eeprom_try_from in Hdec. simpl in Hdec.
  destruct (Eeprom.color_from_u8 b) as [c| |]; try discriminate. simpl in Hdec.
  destruct (Eeprom.pcb_variant_from_u8 b5); try discriminate. simpl in Hdec.
  destruct (Eeprom.display_variant_from_u8 b6); try discriminate. simpl in Hdec.
  destruct (Eeprom.pascal_try_from _); try discriminate.
  simpl in Hdec. injection Hdec as <-. reflexivity.
Qed.

(** C10. Converting an EEPROM color to a drawing color fails exactly for
    SevenColor and maps Black, Red and Yellow to the same-named colors; so
    building the controller from any record decoded with color byte 5 fails,
    whatever the GPIO and SPI peripherals do. *)
Theorem inky_color_conversion :
  (forall c, is_err (Inky.color_try_from c) = true <-> c = Eeprom.SevenColor)
  /\ Inky.color_try_from Eeprom.Black = Ok Inky.Black
  /\ Inky.color_try_from Eeprom.Red = Ok Inky.Red
  /\ Inky.color_try_from Eeprom.Yellow = Ok Inky.Yellow
  /\ (forall hw buf e tr, Eeprom.eeprom_try_from buf = Ok e -> nth_error buf 4 = Some 5 ->
      exists err, fst (Inky.try_from hw e tr) = Err err).
Proof.
  split; [intros []; simpl; split; congruence|].
  split; [reflexivity|split; [reflexivity|split; [reflexivity|]]].
  intros hw buf e tr Hdec Hb.
  pose proof (decode_color_byte buf e 5 Hdec Hb) as Hc.
  unfold Eeprom.color_from_u8 in Hc. simpl in Hc. injection Hc as Hc.
  unfold Inky.try_from, Inky.acquire.
  destruct (Inky.gpio_new_ok hw); [|eexists; reflexivity].
  destruct (Inky.gpio_get_ok hw 22); [|eexists; reflexivity].
  destruct (Inky.gpio_get_ok hw 27); [|eexists; reflexivity].
  destruct (Inky.gpio_get_ok hw 17); [|eexists; reflexivity].
  rewrite <- Hc. eexists. reflexivity.
Qed.

Lemma inky_color_conversion_witness :
  exists err,
    fst (Inky.try_from all_ok_peripherals
                       sample_record_seven []) = Err err.
Proof.
  destruct inky_color_conversion as [_ [_ [_ [_ H]]]].
  apply (H _ ([144; 1; 44; 1; 5] ++ skipn 5 sample_bytes)); reflexivity.
Defined.

(** ** What [pack] computes in general *)

Lemma LUT_BLACK_length : length Inky.LUT_BLACK = 70%nat.
Proof. reflexivity. Qed.

Lemma lsb_byte_app (l : list Z) (x j : Z) :
  lsb_byte (l ++ [x]) j = lsb_byte l j + x * 2 ^ (j + Z.of_nat (length l)).
Proof.
  revert j. induction l as [|b l IH]; intros j; simpl lsb_byte.
  - cbn [length Z.of_nat]. rewrite !Z.add_0_r. lia.
  - rewrite IH. cbn [length]. rewrite Nat2Z.inj_succ.
    replace (j + 1 + Z.of_nat (length l)) with (j + Z.succ (Z.of_nat (length l))) by lia.
    lia.
Qed.

Lemma lsb_byte_bound (l : list Z) (j : Z) :
  0 <= j -> Forall (fun b => 0 <= b <= 1) l ->
  0 <= lsb_byte l j < 2 ^ (j + Z.of_nat (length l)) - 2 ^ j + 1.
Proof.
  intros Hj Hl. revert j Hj. induction Hl as [|b l Hb _ IH]; intros j Hj; simpl lsb_byte.
  - cbn [length Z.of_nat]. rewrite Z.add_0_r. lia.
  - specialize (IH (j + 1) ltac:(lia)). cbn [length]. rewrite Nat2Z.inj_succ.
    replace (j + 1 + Z.of_nat (length l)) with (j + Z.succ (Z.of_nat (length l))) in IH by lia.
    assert (2 ^ (j + 1) = 2 * 2 ^ j) by (rewrite Z.pow_add_r by lia; lia).
    assert (0 < 2 ^ j) by (apply Z.pow_pos_nonneg; lia).
    nia.
Qed.

Lemma spec_pack_bits_small (p : list Z) :
  (1 <= length p <= 8)%nat -> spec_pack_bits p = [lsb_byte p 0].
Proof.
  intros H. unfold spec_pack_bits.
  replace ((length p + 7) / 8)%nat with 1%nat
    by (apply Nat.div_unique with (length p - 1)%nat; lia).
  cbn [seq map]. rewrite Nat.mul_0_r. cbn [skipn].
  rewrite firstn_all2 by lia. reflexivity.
Qed.

Lemma spec_pack_bits_cons8 (p r : list Z) :
  length p = 8%nat -> spec_pack_bits (p ++ r) = lsb_byte p 0 :: spec_pack_bits r.
Proof.
  intros H. unfold spec_pack_bits. rewrite length_app, H.
  replace ((8 + length r + 7) / 8)%nat with (S ((length r + 7) / 8)).
  2:{ replace (8 + length r + 7)%nat with (1 * 8 + (length r + 7))%nat by lia.
      rewrite Nat.div_add_l by lia. lia. }
  cbn [seq map]. rewrite Nat.mul_0_r. simpl skipn.
  rewrite firstn_app, H, Nat.sub_diag, firstn_O, app_nil_r, firstn_all2 by lia.
  f_equal. rewrite <- seq_shift, map_map. apply map_ext. intros k.
  rewrite skipn_app, skipn_all2 by lia. rewrite app_nil_l.
  do 3 f_equal. lia.
Qed.

(** The inner loop from a state whose [cur_byte] holds the bits [pre]. *)
Lemma pack_steps_bits (l : list Inky.Color) (packed pre : list Z) :
  (length pre < 8)%nat -> Forall (fun b => 0 <= b <= 1) pre ->
  pack_flush (fold_left Inky.pack_step l (packed, Z.of_nat (length pre), lsb_byte pre 0))
  = packed ++ spec_pack_bits (pre ++ map Inky.as_u8 l).
Proof.
  revert packed pre. induction l as [|b l IH]; intros packed pre Hlen Hpre.
  - simpl fold_left. unfold pack_flush. rewrite app_nil_r.
    destruct pre as [|x pre'].
    + simpl. rewrite app_nil_r. reflexivity.
    + cbn [length]. replace (Z.of_nat (S (length pre')) =? 0) with false
        by (symmetry; apply Z.eqb_neq; lia).
      rewrite spec_pack_bits_small by (cbn [length] in *; lia). reflexivity.
  - change (fold_left Inky.pack_step (b :: l) (packed, Z.of_nat (length pre), lsb_byte pre 0))
      with (fold_left Inky.pack_step l
              (Inky.pack_step (packed, Z.of_nat (length pre), lsb_byte pre 0) b)).
    pose proof (lsb_byte_bound pre 0 ltac:(lia) Hpre) as Hb. simpl Z.add in Hb.
    rewrite pack_step_eq, pack_bit_add by lia. cbv zeta.
    replace (lsb_byte pre 0 + Inky.as_u8 b * 2 ^ Z.of_nat (length pre))
      with (lsb_byte (pre ++ [Inky.as_u8 b]) 0) by (rewrite lsb_byte_app; reflexivity).
    assert (Hpre' : Forall (fun b => 0 <= b <= 1) (pre ++ [Inky.as_u8 b]))
      by (apply Forall_app; split; [exact Hpre|constructor; [apply as_u8_bit|constructor]]).
    replace (pre ++ map Inky.as_u8 (b :: l)) with ((pre ++ [Inky.as_u8 b]) ++ map Inky.as_u8 l)
      by (rewrite <- app_assoc; reflexivity).
    destruct (Z.eqb_spec (Z.of_nat (length pre) + 1) 8) as [E|E].
    + specialize (IH (packed ++ [lsb_byte (pre ++ [Inky.as_u8 b]) 0]) [] ltac:(simpl; lia)
                    ltac:(constructor)).
      simpl in IH. rewrite IH, <- app_assoc.
      rewrite spec_pack_bits_cons8 by (rewrite length_app; simpl; lia). reflexivity.
    + specialize (IH packed (pre ++ [Inky.as_u8 b])
                    ltac:(rewrite length_app; simpl; lia) Hpre').
      rewrite length_app, Nat2Z.inj_add in IH. simpl Z.of_nat in IH. exact IH.
Qed.

(** [pack] is one-bit-per-pixel (0 for Black), least-significant-bit-first
    packing of the pixels in storage order [pixels[col][row]], i.e. column
    by column. *)
Lemma pack_storage_order (c : Inky.Canvas) :
  Inky.pack c = spec_pack_bits (map Inky.as_u8 (concat (Inky.pixels c))).
Proof.
  pose proof (pack_steps_bits (concat (Inky.pixels c)) [] [] ltac:(simpl; lia)
                ltac:(constructor)) as H.
  simpl in H. rewrite <- H, <- pack_rows_concat.
  unfold Inky.pack, pack_flush. reflexivity.
Qed.

(** * Further properties of the code *)

(** ** Helpers *)

Lemma in_firstn {A} (n : nat) (l : list A) (x : A) : In x (firstn n l) -> In x l.
Proof. intros H. rewrite <- (firstn_skipn n l). apply in_or_app. left. exact H. Qed.

Lemma in_skipn {A} (n : nat) (l : list A) (x : A) : In x (skipn n l) -> In x l.
Proof. intros H. rewrite <- (firstn_skipn n l). apply in_or_app. right. exact H. Qed.

Lemma mem_Z_In (v : Z) (l : list Z) : Eeprom.mem_Z v l = true <-> In v l.
Proof.
  unfold Eeprom.mem_Z. rewrite existsb_exists. split.
  - intros (x & Hx & E). apply Z.eqb_eq in E. subst. exact Hx.
  - intros H. exists v. split; [exact H|apply Z.eqb_refl].
Qed.

Lemma filter_all_true {A} (f : A -> bool) (l : list A) :
  (forall x, In x l -> f x = true) -> filter f l = l.
Proof.
  induction l as [|a l IH]; intros H; [reflexivity|].
  simpl. rewrite (H a (or_introl eq_refl)). f_equal. apply IH.
  intros x Hx. apply H. right. exact Hx.
Qed.

Lemma filter_idem {A} (f : A -> bool) (l : list A) : filter f (filter f l) = filter f l.
Proof. apply filter_all_true. intros x Hx. apply filter_In in Hx. apply Hx. Qed.

(** [PascalString::try_from] succeeds exactly on slices of 1 to 253 bytes. *)
Lemma pascal_try_from_ok_inv (v : list Z) (s : Eeprom.PascalString) :
  Eeprom.pascal_try_from v = Ok s ->
  (1 <= length v < 254)%nat
  /\ s = {| Eeprom.capacity := Z.of_nat (length v); Eeprom.data := tl v |}.
Proof.
  intros H.
  destruct (Nat.ltb_spec (length v) 254) as [Hlt|Hge].
  - destruct v as [|a v].
    + discriminate H.
    + assert (Hr : (1 <= length (a :: v) < 254)%nat) by (cbn [length] in *; lia).
      split; [exact Hr|].
      rewrite (pascal_try_from_ok _ Hr) in H. injection H as <-. reflexivity.
  - unfold Eeprom.pascal_try_from in H.
    replace (Nat.ltb (length v) 254) with false in H by (symmetry; apply Nat.ltb_ge; lia).
    discriminate H.
Qed.

Lemma u16_le_bytes_split (lo hi : Z) :
  0 <= lo < 256 -> 0 <= hi < 256 -> u16_le_bytes (lo + 256 * hi) = [lo; hi].
Proof.
  intros Hl Hh. unfold u16_le_bytes.
  replace ((lo + 256 * hi) / 256) with hi by (apply Z.div_unique with (r := lo); lia).
  rewrite (Z.mod_small hi 256) by lia.
  f_equal. symmetry. apply Z.mod_unique with (q := hi); lia.
Qed.


(** ** Primitive conversions *)

(** Extra. [Command::try_from(v)] succeeds exactly on the 21 command codes
    and gives back the command whose code is [v]; [SpiPacket::command] is
    the code of the packet's command, if any. *)
Theorem command_u8_round_trip :
  (forall v c, command_from_u8 v = Some c <-> v = Inky.command_code c)
  /\ (forall c, command_to_u8 c = Some (Inky.command_code c))
  /\ (forall p, packet_command p = option_map Inky.command_code (Inky.pcommand p)).
Proof.
  split; [|split].
  - intros v c. split.
    + intros H. apply find_some in H. destruct H as [_ H]. apply Z.eqb_eq in H. auto.
    + intros ->. destruct c; reflexivity.
  - intros c. destruct c; reflexivity.
  - intros [[c|] d]; [destruct c|]; reflexivity.
Qed.

(** Extra. The EEPROM [Color] and [PcbVariant] byte conversions are
    inverse: [Color::try_from(v)] gives [c] exactly when [u8::try_from(c)]
    gives [v], and likewise for [PcbVariant]. *)
Theorem eeprom_enum_u8_round_trip :
  (forall v c, Eeprom.color_from_u8 v = Ok c <-> color_try_into_u8 c = Some v)
  /\ (forall v p, Eeprom.pcb_variant_from_u8 v = Ok p <-> pcb_variant_try_into_u8 p = Some v).
Proof.
  split.
  - intros v c. split.
    + intros H. apply color_from_u8_ok in H. subst v. destruct c; reflexivity.
    + destruct c; unfold color_try_into_u8; simpl; intros [= <-]; reflexivity.
  - intros v p. split.
    + intros H. apply pcb_variant_from_u8_ok in H. subst v. destruct p; reflexivity.
    + destruct p; unfold pcb_variant_try_into_u8; simpl; intros [= <-]; reflexivity.
Qed.

(** Extra. [DisplayVariant::try_from(v)] succeeds exactly for the 18 codes
    1-8, 10-12 and 14-20 (0, 9, 13 and everything above 20 are rejected). *)
Theorem display_variant_codes (v : Z) :
  is_ok (Eeprom.display_variant_from_u8 v) = true
  <-> In v [1; 2; 3; 4; 5; 6; 7; 8; 10; 11; 12; 14; 15; 16; 17; 18; 19; 20].
Proof.
  split.
  - unfold Eeprom.display_variant_from_u8.
    repeat match goal with
           | |- context [if Eeprom.mem_Z v ?l then _ else _] =>
               let E := fresh "E" in
               destruct (Eeprom.mem_Z v l) eqn:E;
               [apply mem_Z_In in E; simpl in E; intros _; simpl;
                decompose [or] E; subst; tauto|]
           | |- context [if v =? ?n then _ else _] =>
               let E := fresh "E" in
               destruct (Z.eqb_spec v n) as [E|E];
               [subst; intros _; simpl; tauto|]
           end.
    discriminate.
  - intros H. simpl in H. decompose [or] H; subst; try contradiction; reflexivity.
Qed.

(** ** PascalString *)

(** Extra. A [PascalString] built from a slice converts back
    ([From<PascalString> for Vec<u8>]) to a slice of the same length that
    builds the same string again. *)
Theorem pascal_bytes_round_trip (v : list Z) (s : Eeprom.PascalString) :
  Eeprom.pascal_try_from v = Ok s ->
  Eeprom.pascal_try_from (Eeprom.pascal_to_bytes s) = Ok s
  /\ length (Eeprom.pascal_to_bytes s) = length v.
Proof.
  intros H. apply pascal_try_from_ok_inv in H. destruct H as [Hl ->].
  unfold Eeprom.pascal_to_bytes. simpl Eeprom.capacity. simpl Eeprom.data.
  assert (Hlen : length (Z.of_nat (length v) :: tl v) = length v)
    by (destruct v; cbn [length tl] in *; lia).
  split; [|exact Hlen].
  rewrite pascal_try_from_ok by lia. rewrite Hlen. reflexivity.
Qed.

Lemma pascal_bytes_round_trip_witness :
  Eeprom.pascal_try_from (Eeprom.pascal_to_bytes
    {| Eeprom.capacity := 4; Eeprom.data := [1; 2; 3] |})
  = Ok {| Eeprom.capacity := 4; Eeprom.data := [1; 2; 3] |}
  /\ length (Eeprom.pascal_to_bytes {| Eeprom.capacity := 4; Eeprom.data := [1; 2; 3] |})
     = length [9; 1; 2; 3].
Proof.
  apply (pascal_bytes_round_trip [9; 1; 2; 3]). reflexivity.
Defined.

(** ** The EEPROM codec *)

(** Extra. The decoder reads only the first seven bytes and the bytes after
    them that are not 0xFF: dropping the 0xFF bytes after offset 7, or
    appending any number of 0xFF bytes, does not change the result. *)
Theorem decode_ignores_ff_bytes (buf : list Z) (k : nat) :
  (7 <= length buf)%nat ->
  Eeprom.eeprom_try_from buf
  = Eeprom.eeprom_try_from
      (firstn 7 buf ++ filter (fun v => negb (v =? 255)) (skipn 7 buf))
  /\ Eeprom.eeprom_try_from (buf ++ repeat 255 k) = Eeprom.eeprom_try_from buf.
Proof.
  intros Hlen.
  destruct buf as [|b0 [|b1 [|b2 [|b3 [|b4 [|b5 [|b6 rest]]]]]]];
    cbn [length] in Hlen; try lia.
  cbn [firstn skipn app].
  unfold Eeprom.eeprom_try_from. simpl. rewrite filter_idem, filter_app.
  split; [reflexivity|].
  replace (filter (fun v => negb (v =? 255)) (repeat 255 k)) with (@nil Z)
    by (induction k as [|k IH]; [reflexivity|simpl; exact IH]).
  rewrite app_nil_r. reflexivity.
Qed.

Lemma decode_ignores_ff_bytes_witness :
  Eeprom.eeprom_try_from (firstn 29 sample_bytes ++ repeat 255 3)
  = Eeprom.eeprom_try_from (firstn 29 sample_bytes).
Proof.
  apply (decode_ignores_ff_bytes (firstn 29 sample_bytes) 3). simpl. lia.
Defined.

(** Reduction of the decoder on a concrete prefix, keeping [lo + 256 * hi]. *)
Ltac dsimpl H :=
  cbn -[Z.mul Z.add filter Eeprom.color_from_u8 Eeprom.pcb_variant_from_u8
        Eeprom.display_variant_from_u8 Eeprom.pascal_try_from] in H.

(** Extra. Re-encoding a decoded record ([From<EEPROM> for Vec<u8>]) gives
    back the first six bytes, then the display variant's discriminant (not
    the code that was read), then the write-time string as its capacity
    (the number of non-0xFF bytes after offset 7) followed by those bytes
    but the first; the 0xFF padding is gone. Decoding the re-encoded bytes
    gives the record back exactly when its display variant is [What]. *)
Theorem eeprom_reencode (buf : list Z) (e : Eeprom.EEPROM) :
  Forall (fun b => 0 <= b < 256) buf ->
  Eeprom.eeprom_try_from buf = Ok e ->
  let t := filter (fun v => negb (v =? 255)) (skipn 7 buf) in
  Eeprom.eeprom_to_bytes e
  = firstn 6 buf ++ [Eeprom.display_variant_as_u8 (Eeprom.display_variant e)]
    ++ Z.of_nat (length t) :: tl t
  /\ (Eeprom.eeprom_try_from (Eeprom.eeprom_to_bytes e) = Ok e
      <-> Eeprom.display_variant e = Eeprom.What).
Proof.
  intros Hb Hdec. cbv zeta.
  pose proof (decode_ok_length _ _ Hdec) as Hlen.
  destruct buf as [|b0 [|b1 [|b2 [|b3 [|b4 [|b5 [|b6 rest]]]]]]];
    cbn [length] in Hlen; try lia.
  rewrite !Forall_cons_iff in Hb.
  destruct Hb as (H0 & H1 & H2 & H3 & H4 & H5 & H6 & Hrest).
  cbn [firstn skipn app].
  unfold Eeprom.eeprom_try_from in Hdec. dsimpl Hdec.
  destruct (Eeprom.color_from_u8 b4) as [c| |] eqn:Hc; try discriminate. dsimpl Hdec.
  destruct (Eeprom.pcb_variant_from_u8 b5) as [p| |] eqn:Hp; try discriminate.
  dsimpl Hdec.
  destruct (Eeprom.display_variant_from_u8 b6) as [d| |] eqn:Hd; try discriminate.
  dsimpl Hdec.
  set (t := filter (fun v => negb (v =? 255)) rest) in *.
  destruct (Eeprom.pascal_try_from t) as [s| |] eqn:Hs; try discriminate.
  dsimpl Hdec. injection Hdec as <-.
  match goal with
  | |- context [Eeprom.Build_EEPROM ?w ?h _ _ _ _] =>
      change w with (b0 + 256 * b1); change h with (b2 + 256 * b3)
  end.
  apply pascal_try_from_ok_inv in Hs. destruct Hs as [Ht ->].
  apply color_from_u8_ok in Hc. apply pcb_variant_from_u8_ok in Hp.
  assert (Henc : Eeprom.eeprom_to_bytes
      {| Eeprom.width := b0 + 256 * b1; Eeprom.height := b2 + 256 * b3;
         Eeprom.color := c; Eeprom.pcb_variant := p; Eeprom.display_variant := d;
         Eeprom.eeprom_write_time :=
           {| Eeprom.capacity := Z.of_nat (length t); Eeprom.data := tl t |} |}
      = [b0; b1; b2; b3; b4; b5; Eeprom.display_variant_as_u8 d]
        ++ Z.of_nat (length t) :: tl t).
  { unfold Eeprom.eeprom_to_bytes.
    cbn [Eeprom.width Eeprom.height Eeprom.color Eeprom.pcb_variant
         Eeprom.display_variant Eeprom.eeprom_write_time].
    rewrite !u16_le_bytes_split by lia. simpl. rewrite Hc, Hp. reflexivity. }
  split; [exact Henc|]. rewrite Henc. simpl Eeprom.display_variant.
  assert (Hnf : forall x, In x (Z.of_nat (length t) :: tl t) -> negb (x =? 255) = true).
  { intros x [<-|Hx].
    - apply negb_true_iff, Z.eqb_neq. lia.
    - destruct t as [|y t'] eqn:Et; [contradiction|].
      assert (Hin : In x (filter (fun v => negb (v =? 255)) rest))
        by (fold t; rewrite Et; right; exact Hx).
      apply filter_In in Hin. apply Hin. }
  assert (Hpas : Eeprom.pascal_try_from (Z.of_nat (length t) :: tl t)
                 = Ok {| Eeprom.capacity := Z.of_nat (length t); Eeprom.data := tl t |}).
  { rewrite pascal_try_from_ok.
    - f_equal. f_equal. destruct t; cbn [length tl] in *; lia.
    - destruct t; cbn [length tl] in *; lia. }
  rewrite <- Hc, <- Hp.
  unfold Eeprom.eeprom_try_from. simpl.
  replace (negb (Z.of_nat (length t) =? 255)) with true
    by (symmetry; apply Hnf; left; reflexivity).
  rewrite (filter_all_true _ (tl t)) by (intros x Hx; apply Hnf; right; exact Hx).
  rewrite Hpas.
  destruct c, p, d; simpl; split; intros H; try reflexivity; congruence.
Qed.

Lemma eeprom_reencode_witness :
  Eeprom.eeprom_try_from (Eeprom.eeprom_to_bytes sample_record) = Ok sample_record.
Proof.
  assert (Hb : Forall (fun b => 0 <= b < 256) (firstn 29 sample_bytes)).
  { apply Forall_forall. intros x Hx. simpl in Hx.
    repeat (destruct Hx as [<-|Hx]; [lia|]). contradiction. }
  pose proof (eeprom_reencode (firstn 29 sample_bytes) sample_record Hb
                ltac:(reflexivity)) as H.
  cbv zeta in H. destruct H as [_ [_ H]]. apply H. reflexivity.
Defined.

(** ** The canvas *)

Lemma replace_at_nth {A} (i : nat) (x : A) (l l' : list A) :
  Inky.replace_at i x l = Ok l' ->
  forall j, nth_error l' j = if Nat.eqb j i then Some x else nth_error l j.
Proof.
  revert i l'. induction l as [|y l IH]; intros i l' H j; [destruct i; discriminate H|].
  destruct i as [|i]; simpl in H.
  - injection H as <-. destruct j; reflexivity.
  - destruct (Inky.replace_at i x l) as [r| |] eqn:E; try discriminate.
    injection H as <-. destruct j as [|j]; [reflexivity|]. simpl. apply IH. exact E.
Qed.

Lemma replace_at_result {A} (i : nat) (x : A) (l : list A) :
  ((i < length l)%nat -> exists l', Inky.replace_at i x l = Ok l')
  /\ ((length l <= i)%nat -> Inky.replace_at i x l = Panic).
Proof.
  revert i. induction l as [|y l IH]; intros i.
  - split; [cbn [length]; lia|intros _; destruct i; reflexivity].
  - destruct i as [|i]; cbn [length].
    + split; [intros _; eexists; reflexivity|lia].
    + destruct (IH i) as [Hok Hpanic]. split.
      * intros Hi. destruct (Hok ltac:(lia)) as [l' E]. simpl. rewrite E.
        eexists. reflexivity.
      * intros Hi. simpl. rewrite Hpanic by lia. reflexivity.
Qed.

(** Extra. In a fresh canvas ([Canvas::new]) every pixel inside the
    width x height grid is White, and [get_pixel] outside it panics. *)
Theorem get_pixel_canvas_new (w h col row : nat) :
  get_pixel (Inky.canvas_new w h) col row
  = if Nat.ltb col w && Nat.ltb row h then Ok Inky.White else Panic.
Proof.
  unfold get_pixel, Inky.canvas_new. cbn [Inky.pixels].
  destruct (Nat.ltb_spec col w) as [Hc|Hc].
  - rewrite nth_error_repeat by exact Hc.
    destruct (Nat.ltb_spec row h) as [Hr|Hr].
    + rewrite nth_error_repeat by exact Hr. reflexivity.
    + replace (nth_error (repeat Inky.White h) row) with (@None Inky.Color); [reflexivity|].
      symmetry. apply nth_error_None. rewrite repeat_length. exact Hr.
  - replace (nth_error (repeat (repeat Inky.White h) w) col) with (@None (list Inky.Color));
      [reflexivity|].
    symmetry. apply nth_error_None. rewrite repeat_length. exact Hc.
Qed.

(** Extra. After a successful [set_pixel(col, row, color)], [get_pixel]
    returns [color] at [(col, row)] and what it returned before at every
    other position; the dimensions are unchanged. *)
Theorem set_pixel_get_pixel (c c' : Inky.Canvas) (col row : nat) (x : Inky.Color) :
  Inky.set_pixel c col row x = Ok c' ->
  get_pixel c' col row = Ok x
  /\ (forall col' row', (col', row') <> (col, row) ->
      get_pixel c' col' row' = get_pixel c col' row')
  /\ Inky.cwidth c' = Inky.cwidth c /\ Inky.cheight c' = Inky.cheight c.
Proof.
  intros H. unfold Inky.set_pixel in H.
  destruct (nth_error (Inky.pixels c) col) as [column|] eqn:En; [|discriminate].
  destruct (Inky.replace_at row x column) as [column'| |] eqn:E1; try discriminate.
  cbn [obind] in H.
  destruct (Inky.replace_at col column' (Inky.pixels c)) as [px| |] eqn:E2; try discriminate.
  cbn [obind] in H. injection H as <-.
  pose proof (replace_at_nth _ _ _ _ E1) as N1.
  pose proof (replace_at_nth _ _ _ _ E2) as N2.
  unfold get_pixel. cbn [Inky.pixels Inky.cwidth Inky.cheight].
  split; [|split; [|split; reflexivity]].
  - rewrite N2, Nat.eqb_refl, N1, Nat.eqb_refl. reflexivity.
  - intros col' row' Hne. rewrite N2.
    destruct (Nat.eqb_spec col' col) as [->|Hc].
    + rewrite En, N1. destruct (Nat.eqb_spec row' row) as [->|]; [congruence|reflexivity].
    + reflexivity.
Qed.

Lemma set_pixel_get_pixel_witness :
  get_pixel {| Inky.cwidth := 2; Inky.cheight := 2;
               Inky.pixels := [[Inky.White; Inky.White]; [Inky.Red; Inky.White]] |} 1 0
  = Ok Inky.Red.
Proof.
  destruct (set_pixel_get_pixel (Inky.canvas_new 2 2)
              {| Inky.cwidth := 2; Inky.cheight := 2;
                 Inky.pixels := [[Inky.White; Inky.White]; [Inky.Red; Inky.White]] |}
              1 0 Inky.Red ltac:(reflexivity)) as [H _].
  exact H.
Defined.

(** Extra. On a canvas built as [Canvas::new] builds it, [set_pixel] never
    returns an error: it succeeds inside the grid and panics exactly when
    [col >= width] or [row >= height]. *)
Theorem set_pixel_bounds (c : Inky.Canvas) (col row : nat) (x : Inky.Color) :
  canvas_wf c ->
  (Inky.set_pixel c col row x = Panic
   <-> (Inky.cwidth c <= col \/ Inky.cheight c <= row)%nat)
  /\ (forall err, Inky.set_pixel c col row x <> Err err).
Proof.
  intros [Hw Hh]. unfold Inky.set_pixel.
  destruct (nth_error (Inky.pixels c) col) as [column|] eqn:En.
  - assert (Hcol : (col < Inky.cwidth c)%nat)
      by (rewrite <- Hw; apply nth_error_Some; congruence).
    assert (Hlen : length column = Inky.cheight c)
      by (rewrite Forall_forall in Hh; apply Hh; eapply nth_error_In; exact En).
    destruct (Nat.ltb_spec row (Inky.cheight c)) as [Hr|Hr].
    + destruct (proj1 (replace_at_result row x column) ltac:(lia)) as [column' E1].
      rewrite E1. cbn [obind].
      destruct (proj1 (replace_at_result col column' (Inky.pixels c)) ltac:(lia))
        as [px E2].
      rewrite E2. cbn [obind]. split; [split; [discriminate|lia]|discriminate].
    + rewrite (proj2 (replace_at_result row x column)) by lia. cbn [obind].
      split; [split; [lia|reflexivity]|discriminate].
  - assert (Hcol : (Inky.cwidth c <= col)%nat)
      by (rewrite <- Hw; apply nth_error_None; exact En).
    split; [split; [lia|reflexivity]|discriminate].
Qed.

Lemma set_pixel_bounds_witness :
  Inky.set_pixel (Inky.canvas_new 2 2) 2 0 Inky.Black = Panic.
Proof.
  destruct (set_pixel_bounds (Inky.canvas_new 2 2) 2 0 Inky.Black (canvas_new_wf 2 2))
    as [[_ H] _].
  apply H. simpl. lia.
Defined.

(** ** The bit-packer, further *)

Lemma lsb_byte_ones (r : nat) (j : Z) :
  0 <= j -> lsb_byte (repeat 1 r) j = 2 ^ (j + Z.of_nat r) - 2 ^ j.
Proof.
  revert j. induction r as [|r IH]; intros j Hj; cbn [repeat lsb_byte].
  - cbn [Z.of_nat]. rewrite Z.add_0_r. lia.
  - rewrite IH by lia. rewrite Nat2Z.inj_succ.
    replace (j + 1 + Z.of_nat r) with (j + Z.succ (Z.of_nat r)) by lia.
    assert (2 ^ (j + 1) = 2 * 2 ^ j) by (rewrite Z.pow_add_r by lia; lia).
    lia.
Qed.

Lemma lsb_byte_zeros (l : list Z) (j : Z) :
  (forall x, In x l -> x = 0) -> lsb_byte l j = 0.
Proof.
  revert j. induction l as [|b l IH]; intros j H; [reflexivity|].
  simpl. rewrite (H b (or_introl eq_refl)), IH; [lia|].
  intros x Hx. apply H. right. exact Hx.
Qed.

Lemma repeat_plus {A} (x : A) (n m : nat) : repeat x (n + m) = repeat x n ++ repeat x m.
Proof. induction n as [|n IH]; [reflexivity|simpl; f_equal; exact IH]. Qed.

Lemma spec_pack_bits_ones (q r : nat) :
  (r < 8)%nat ->
  spec_pack_bits (repeat 1 (8 * q + r))
  = repeat 255 q ++ (if Nat.eqb r 0 then [] else [2 ^ Z.of_nat r - 1]).
Proof.
  intros Hr. induction q as [|q IH].
  - simpl Nat.mul. simpl repeat at 2. rewrite app_nil_l.
    destruct (Nat.eqb_spec r 0) as [->|Hr0]; [reflexivity|].
    rewrite spec_pack_bits_small by (rewrite repeat_length; lia).
    rewrite lsb_byte_ones by lia. reflexivity.
  - replace (8 * S q + r)%nat with (8 + (8 * q + r))%nat by lia.
    rewrite repeat_plus, spec_pack_bits_cons8 by apply repeat_length.
    rewrite IH. reflexivity.
Qed.

Lemma concat_repeat_repeat {A} (x : A) (w h : nat) :
  concat (repeat (repeat x h) w) = repeat x (w * h).
Proof.
  induction w as [|w IH]; [reflexivity|].
  simpl. rewrite IH, <- repeat_plus. reflexivity.
Qed.

(** Extra. [pack] sees only whether a pixel is Black: two canvases whose
    pixels agree, position by position, on being Black pack to the same
    bytes. Red and Yellow pixels are sent exactly as White ones. *)
Theorem pack_black_only (c1 c2 : Inky.Canvas) :
  map (map Inky.as_u8) (Inky.pixels c1) = map (map Inky.as_u8) (Inky.pixels c2) ->
  Inky.pack c1 = Inky.pack c2.
Proof.
  intros H. rewrite !pack_storage_order, !concat_map, H. reflexivity.
Qed.

Lemma pack_black_only_witness :
  Inky.pack {| Inky.cwidth := 2; Inky.cheight := 1;
               Inky.pixels := [[Inky.Red]; [Inky.Yellow]] |}
  = Inky.pack (Inky.canvas_new 2 1).
Proof. apply pack_black_only. reflexivity. Defined.

(** Extra. A fresh canvas ([Canvas::new(w, h)], all White) packs to
    [w*h/8] bytes 0xFF followed, when [w*h] is not a multiple of 8, by one
    byte with only its low [(w*h) mod 8] bits set. *)
Theorem pack_blank_canvas (w h : nat) :
  Inky.pack (Inky.canvas_new w h)
  = repeat 255 (w * h / 8)
    ++ (if Nat.eqb ((w * h) mod 8) 0 then [] else [2 ^ Z.of_nat ((w * h) mod 8) - 1]).
Proof.
  rewrite pack_storage_order. cbn [Inky.canvas_new Inky.pixels].
  rewrite concat_repeat_repeat, map_repeat. simpl Inky.as_u8.
  rewrite (Nat.div_mod_eq (w * h) 8) at 1.
  apply spec_pack_bits_ones. apply Nat.mod_upper_bound. lia.
Qed.

(** Extra. A canvas of [w] columns of [h] pixels that are all Black packs
    to [ceil(w*h/8)] zero bytes. *)
Theorem pack_all_black (c : Inky.Canvas) :
  canvas_wf c -> Forall (Forall (fun p => p = Inky.Black)) (Inky.pixels c) ->
  Inky.pack c = repeat 0 ((Inky.cwidth c * Inky.cheight c + 7) / 8).
Proof.
  intros [Hw Hh] Hb. rewrite pack_storage_order.
  assert (Hz : forall x, In x (map Inky.as_u8 (concat (Inky.pixels c))) -> x = 0).
  { intros x Hx. apply in_map_iff in Hx. destruct Hx as (p & <- & Hp).
    apply in_concat in Hp. destruct Hp as (col & Hcol & Hp).
    rewrite Forall_forall in Hb. specialize (Hb col Hcol).
    rewrite Forall_forall in Hb. rewrite (Hb p Hp). reflexivity. }
  unfold spec_pack_bits.
  rewrite (map_ext_in _ (fun _ => 0)).
  - rewrite map_const, length_seq, length_map, (length_concat_wf _ _ Hh), Hw.
    reflexivity.
  - intros k _. apply lsb_byte_zeros. intros x Hx.
    apply Hz. apply in_skipn with (n := (8 * k)%nat). apply in_firstn with (n := 8%nat).
    exact Hx.
Qed.

Lemma pack_all_black_witness : Inky.pack black_8x1 = [0].
Proof.
  apply (pack_all_black black_8x1).
  - split; [reflexivity|repeat constructor].
  - repeat constructor.
Defined.

(** ** [spi_send] on the wires *)

Lemma chunks_fuel_spec (n : nat) :
  (0 < n)%nat ->
  forall f l, (length l <= f)%nat ->
  concat (chunks_fuel f n l) = l
  /\ Forall (fun x => (1 <= length x <= n)%nat) (chunks_fuel f n l)
  /\ length (chunks_fuel f n l) = ((length l + n - 1) / n)%nat.
Proof.
  intros Hn f. induction f as [|f IH]; intros l Hl.
  - destruct l as [|a l]; cbn [length] in Hl; [|lia].
    split; [reflexivity|split; [constructor|]].
    cbn [length chunks_fuel]. symmetry. apply Nat.div_small. lia.
  - destruct l as [|a l].
    + split; [reflexivity|split; [constructor|]].
      cbn [length chunks_fuel]. symmetry. apply Nat.div_small. lia.
    + set (L := a :: l) in *.
      change (chunks_fuel (S f) n L) with (firstn n L :: chunks_fuel f n (skipn n L)).
      assert (HL : (1 <= length L)%nat) by (subst L; cbn [length]; lia).
      destruct (IH (skipn n L) ltac:(rewrite length_skipn; lia)) as (Hc & Hf & Hlen).
      split; [|split].
      * cbn [concat]. rewrite Hc. apply firstn_skipn.
      * constructor; [|exact Hf]. rewrite length_firstn. lia.
      * cbn [length]. rewrite Hlen, length_skipn.
        destruct (Nat.le_gt_cases (length L) n) as [Hle|Hgt].
        -- replace (length L - n + n - 1)%nat with (n - 1)%nat by lia.
           rewrite Nat.div_small by lia.
           apply Nat.div_unique with (r := (length L - 1)%nat); lia.
        -- replace (length L + n - 1)%nat with ((length L - n + n - 1) + 1 * n)%nat by lia.
           rewrite Nat.div_add by lia. lia.
Qed.

(** Extra. [Inky::spi_send] drives DC low and writes the command byte when
    the packet has a command, then, only if the data is non-empty, drives DC
    high and writes the data in order, in [ceil(len/4096)] writes of 1 to
    4096 bytes each. *)
Theorem spi_send_wire_spec (p : Inky.SpiPacket) :
  exists ch,
    spi_send_wire p
    = match Inky.pcommand p with
      | Some c => [DcLow; SpiWrite [Inky.command_code c]]
      | None => []
      end
      ++ match Inky.pdata p with
         | [] => []
         | _ => DcHigh :: map SpiWrite ch
         end
    /\ concat ch = Inky.pdata p
    /\ Forall (fun x => (1 <= length x <= 4096)%nat) ch
    /\ length ch = ((length (Inky.pdata p) + 4095) / 4096)%nat.
Proof.
  exists (chunks 4096 (Inky.pdata p)).
  assert (Hpc : packet_command p = option_map Inky.command_code (Inky.pcommand p))
    by (destruct p as [[c|] d]; [destruct c|]; reflexivity).
  destruct (chunks_fuel_spec 4096 ltac:(lia) (length (Inky.pdata p)) (Inky.pdata p)
              ltac:(lia)) as (Hc & Hf & Hlen).
  split; [|split; [exact Hc|split; [exact Hf|]]].
  - unfold spi_send_wire. rewrite Hpc. destruct (Inky.pcommand p); reflexivity.
  - unfold chunks. rewrite Hlen. f_equal. lia.
Qed.

(** ** Building the controller *)

Lemma bind_ok {A B} (m : M A) (k : A -> M B) (tr tr1 : list event) (a : A) :
  m tr = (Ok a, tr1) -> bind m k tr = k a tr1.
Proof. intros H. unfold bind. rewrite H. reflexivity. Qed.

(** Extra. When [Inky::try_from] succeeds, the GPIO pins 22, 27 and 17 and
    the SPI device were all acquired, the EEPROM color converts and every
    call of [reset] succeeded; the controller has the EEPROM's width and
    height and a fresh (all-White) canvas of that size, and what was done
    on the lines and the bus is DC low, reset high and the [reset]
    sequence. *)
Theorem try_from_ok (hw : Inky.Peripherals) (e : Eeprom.EEPROM) (tr tr' : list event)
  (i : Inky.Inky) :
  Inky.try_from hw e tr = (Ok i, tr') ->
  Inky.gpio_new_ok hw = true /\ Inky.gpio_get_ok hw 22 = true
  /\ Inky.gpio_get_ok hw 27 = true /\ Inky.gpio_get_ok hw 17 = true
  /\ Inky.spi_new_ok hw = true /\ Inky.spi_write_ok hw = true
  /\ Inky.set_interrupt_ok hw = true /\ Inky.poll_interrupt_ok hw = true
  /\ Inky.clear_interrupt_ok hw = true
  /\ Inky.color_try_from (Eeprom.color e) = Ok (Inky.icolor i)
  /\ Inky.iwidth i = Eeprom.width e /\ Inky.iheight i = Eeprom.height e
  /\ Inky.canvas i = Inky.canvas_new (Z.to_nat (Eeprom.width e)) (Z.to_nat (Eeprom.height e))
  /\ tr' = tr ++ try_from_events.
Proof.
  intros H.
  unfold Inky.try_from, Inky.reset, Inky.send_command_on, Inky.wait_on, Inky.acquire in H.
  destruct (Inky.gpio_new_ok hw); [|discriminate H].
  destruct (Inky.gpio_get_ok hw 22); [|discriminate H].
  destruct (Inky.gpio_get_ok hw 27); [|discriminate H].
  destruct (Inky.gpio_get_ok hw 17); [|discriminate H].
  destruct (Inky.color_try_from (Eeprom.color e)) as [col| |] eqn:Ec;
    [|discriminate H|discriminate H].
  destruct (Inky.spi_new_ok hw); [|discriminate H].
  destruct (Inky.spi_write_ok hw); [|discriminate H].
  destruct (Inky.set_interrupt_ok hw); [|discriminate H].
  destruct (Inky.poll_interrupt_ok hw); [|discriminate H].
  destruct (Inky.clear_interrupt_ok hw); [|discriminate H].
  cbn in H. injection H as <- <-.
  repeat split; try reflexivity.
  unfold try_from_events. flatten_trace. reflexivity.
Qed.

Lemma try_from_ok_witness :
  Inky.canvas_new 8 1 = Inky.canvas_new 8 1
  /\ [] ++ try_from_events = [] ++ try_from_events.
Proof.
  destruct (try_from_ok all_ok_peripherals
              {| Eeprom.width := 8; Eeprom.height := 1; Eeprom.color := Eeprom.Black;
                 Eeprom.pcb_variant := Eeprom.V1; Eeprom.display_variant := Eeprom.What;
                 Eeprom.eeprom_write_time := {| Eeprom.capacity := 1; Eeprom.data := [] |} |}
              [] ([] ++ try_from_events)
              {| Inky.iwidth := 8; Inky.iheight := 1; Inky.icolor := Inky.Black;
                 Inky.canvas := Inky.canvas_new 8 1 |}
              ltac:(reflexivity))
    as (_ & _ & _ & _ & _ & _ & _ & _ & _ & _ & _ & _ & Hc & Hr).
  split; [exact Hc|exact Hr].
Defined.





(** ** Acquisition, further *)

(** What a run of the retry loop appends to the trace, and where a decoded
    record comes from. *)
Lemma tries_loop_trace (max : nat) (bus : nat -> I2cAttempt) :
  forall left i tr r tr',
  tries_loop max bus left i tr = (r, tr') ->
  exists added, tr' = tr ++ added
    /\ (length (filter is_i2c_read added) <= left)%nat
    /\ (forall e, r = Ok e -> exists j n buf, (i <= j < i + left)%nat
          /\ bus j = I2cReadBytes n buf /\ 29 <= n /\ Eeprom.eeprom_try_from buf = Ok e).
Proof.
  induction left as [|left IH]; intros i tr r tr' H.
  - cbn [tries_loop] in H. unfold raise in H. injection H as <- <-.
    exists []. rewrite app_nil_r. split; [reflexivity|split; [simpl; lia|discriminate]].
  - cbn [tries_loop] in H.
    destruct (bus i) as [stage|read buffer] eqn:Hb.
    + destruct stage; rewrite ?bind_emit in H; unfold raise in H; injection H as <- <-.
      1-2: exists []; rewrite app_nil_r; split; [reflexivity|split; [simpl; lia|discriminate]].
      all: exists [I2cWrite ADDRESS [0x00; 0x00]];
        split; [reflexivity|split; [simpl; lia|discriminate]].
    + rewrite !bind_emit in H.
      destruct (Z.ltb_spec read 29) as [Hs|Hs].
      * unfold raise in H. injection H as <- <-.
        exists [I2cWrite ADDRESS [0x00; 0x00]; I2cRead ADDRESS].
        rewrite <- app_assoc. split; [reflexivity|split; [simpl; lia|discriminate]].
      * destruct (Eeprom.eeprom_try_from buffer) as [e'|err|] eqn:Hd.
        -- unfold ret in H. injection H as <- <-.
           exists [I2cWrite ADDRESS [0x00; 0x00]; I2cRead ADDRESS].
           rewrite <- app_assoc. split; [reflexivity|split; [simpl; lia|]].
           intros e [= <-]. exists i, read, buffer. repeat split; auto; lia.
        -- rewrite bind_emit in H.
           destruct (IH (S i) _ r tr' H) as (added & -> & Hc & Hok).
           exists ([I2cWrite ADDRESS [0x00; 0x00]; I2cRead ADDRESS; Sleep 100] ++ added).
           split; [flatten_trace; reflexivity|split].
           ++ rewrite filter_app. rewrite length_app. simpl. lia.
           ++ intros e He. destruct (Hok e He) as (j & n & buf & Hj & Hrest).
              exists j, n, buf. split; [lia|exact Hrest].
        -- unfold panic in H. injection H as <- <-.
           exists [I2cWrite ADDRESS [0x00; 0x00]; I2cRead ADDRESS].
           rewrite <- app_assoc. split; [reflexivity|split; [simpl; lia|discriminate]].
Qed.

(** Extra. [try_new_tries] makes no I2C transfer when the bus cannot be
    opened (the bus error is returned) or when [max_tries] is 0 (the
    "failed in 0 tries" error is returned). *)
Theorem try_new_tries_no_attempt (bus : nat -> I2cAttempt) (max : nat) (tr : list event) :
  try_new_tries false bus max tr = (Err EBus, tr)
  /\ try_new_tries true bus 0 tr = (Err (ETries 0), tr).
Proof. split; reflexivity. Qed.

(** Extra. [try_new_tries(max_tries)] reads the EEPROM at most [max_tries]
    times, whatever the bus returns. *)
Theorem try_new_tries_read_bound (ok : bool) (bus : nat -> I2cAttempt) (max : nat)
  (tr : list event) :
  exists added, snd (try_new_tries ok bus max tr) = tr ++ added
    /\ (length (filter is_i2c_read added) <= max)%nat.
Proof.
  unfold try_new_tries, Inky.acquire. destruct ok.
  - rewrite bind_ret.
    destruct (tries_loop max bus max 0 tr) as [r tr'] eqn:E.
    destruct (tries_loop_trace max bus max 0 tr r tr' E) as (added & -> & Hc & _).
    exists added. split; [reflexivity|exact Hc].
  - exists []. rewrite app_nil_r. split; [reflexivity|simpl; lia].
Qed.

(** Extra. A record returned by [try_new_tries(max_tries)] is the decoding
    of the buffer of one of the first [max_tries] reads, a read of at least
    29 bytes. *)
Theorem try_new_tries_ok_source (ok : bool) (bus : nat -> I2cAttempt) (max : nat)
  (tr tr' : list event) (e : Eeprom.EEPROM) :
  try_new_tries ok bus max tr = (Ok e, tr') ->
  exists i n buf, (i < max)%nat /\ bus i = I2cReadBytes n buf /\ 29 <= n
    /\ Eeprom.eeprom_try_from buf = Ok e.
Proof.
  unfold try_new_tries, Inky.acquire. destruct ok; [|discriminate].
  rewrite bind_ret. intros H.
  destruct (tries_loop_trace max bus max 0 tr _ _ H) as (_ & _ & _ & Hok).
  destruct (Hok e eq_refl) as (j & n & buf & Hj & Hrest).
  exists j, n, buf. split; [lia|exact Hrest].
Qed.

Lemma try_new_tries_ok_source_witness :
  exists i n buf, (i < 3)%nat /\ garbage_then_good i = I2cReadBytes n buf /\ 29 <= n
    /\ Eeprom.eeprom_try_from buf = Ok sample_record.
Proof.
  apply (try_new_tries_ok_source true garbage_then_good 3 []
           [I2cWrite ADDRESS [0x00; 0x00]; I2cRead ADDRESS; Sleep 100;
            I2cWrite ADDRESS [0x00; 0x00]; I2cRead ADDRESS]).
  reflexivity.
Defined.

(** ** PascalString setters *)

(** Extra. [set_capacity(n)] stores [(n as u8) + 1], so a following
    [set_data(d)] keeps the first [n mod 256] items of [d] (none at all for
    [n = 256]), as long as the [reserve(n)] it makes fits [isize::MAX].
    With overflow checks, [n mod 256 = 255] overflows the [u8] addition and
    panics; a reserve beyond [isize::MAX] panics with capacity overflow. *)
Theorem pascal_set_capacity_data (s : Eeprom.PascalString) (n : nat) (d : list Z) :
  (Z.of_nat n mod 256 < 255 ->
   Z.of_nat (length (Eeprom.data s)) + Z.of_nat n <= Eeprom.isize_max ->
   exists s', Eeprom.set_capacity s n = Ok s'
     /\ Eeprom.set_data s' d
        = Ok {| Eeprom.capacity := Z.of_nat n mod 256 + 1;
                Eeprom.data := firstn (Z.to_nat (Z.of_nat n mod 256)) d |})
  /\ (Z.of_nat n mod 256 = 255 -> Eeprom.set_capacity s n = Panic)
  /\ (Eeprom.isize_max < Z.of_nat (length (Eeprom.data s)) + Z.of_nat n ->
      Eeprom.set_capacity s n = Panic).
Proof.
  pose proof (Z.mod_pos_bound (Z.of_nat n) 256 ltac:(lia)) as Hm.
  unfold Eeprom.set_capacity, Eeprom.reserve. split; [|split].
  - intros Hlt Hfit.
    replace (Z.of_nat n mod 256 + 1 <? 256) with true by (symmetry; apply Z.ltb_lt; lia).
    rewrite (proj2 (Z.ltb_ge _ _) Hfit).
    eexists. split; [reflexivity|].
    unfold Eeprom.set_data. cbn [Eeprom.capacity].
    replace (Z.of_nat n mod 256 + 1 =? 0) with false by (symmetry; apply Z.eqb_neq; lia).
    replace (Z.of_nat n mod 256 + 1 - 1) with (Z.of_nat n mod 256) by lia.
    reflexivity.
  - intros Heq. rewrite Heq. reflexivity.
  - intros Hbig. rewrite (proj2 (Z.ltb_lt _ _) Hbig).
    destruct (Z.of_nat n mod 256 + 1 <? 256); reflexivity.
Qed.

Lemma pascal_set_capacity_data_witness :
  exists s', Eeprom.set_capacity {| Eeprom.capacity := 3; Eeprom.data := [7; 8] |} 256 = Ok s'
    /\ Eeprom.set_data s' [1; 2]
       = Ok {| Eeprom.capacity := 1; Eeprom.data := [] |}.
Proof.
  destruct (pascal_set_capacity_data {| Eeprom.capacity := 3; Eeprom.data := [7; 8] |}
              256 [1; 2]) as [H _].
  apply H; [reflexivity|unfold Eeprom.isize_max; simpl; lia].
Defined.
